(** * GenBench: the issue classifier and the suitability filter

    A shallow embedding of [issue_classifier.py] (class [IssueClassifier]) and
    of the two suitability filters of [analyze.py]
    ([is_suitable_programming_issue], [is_suitable_programming_issue_llm]),
    with the properties of the keyword scorer, the template matcher, the
    decision rule, the confidence value and the suitability verdicts.

    Python values are modelled as follows.
    - A [str] is the list of its Unicode code points.
    - The character tables of the interpreter ([str.lower], [\w], [\s],
      case-insensitive comparison) are an interface, [Unicode], that fixes
      their behaviour on ASCII and on the CJK ideographs of the lexicons and
      leaves every other code point free.
    - The regular expressions of the sources are terms of [regex], run by a
      backtracking matcher that follows the order of [re].
    - A float score is the rational number it denotes: scores are sums of
      small integers and halves, exactly representable in binary64. *)

From Stdlib Require Import String Ascii DecimalString DecimalN.
From Stdlib Require Import List Bool Arith NArith ZArith QArith Qminmax Lia Lqa.
Import ListNotations.

Set Implicit Arguments.

(** ** Python strings *)

Definition char := N.
Definition str := list char.

Section Utf8.
Local Open Scope N_scope.

(** Source literals are written as Rocq strings, whose bytes are the UTF-8
    encoding of the text; [utf8] decodes them to code points. *)
Fixpoint utf8 (bs : list N) : str :=
  match bs with
  | [] => []
  | b0 :: r0 =>
    if b0 <? 128 then b0 :: utf8 r0
    else match r0 with
    | [] => []
    | b1 :: r1 =>
      if b0 <? 224 then (b0 mod 32 * 64 + b1 mod 64) :: utf8 r1
      else match r1 with
      | [] => []
      | b2 :: r2 =>
        if b0 <? 240
        then (b0 mod 16 * 4096 + b1 mod 64 * 64 + b2 mod 64) :: utf8 r2
        else match r2 with
        | [] => []
        | b3 :: r3 =>
          (b0 mod 8 * 262144 + b1 mod 64 * 4096 + b2 mod 64 * 64 + b3 mod 64)
            :: utf8 r3
        end
      end
    end
  end.

End Utf8.

Definition py (s : string) : str :=
  utf8 (map N_of_ascii (list_ascii_of_string s)).
Arguments py s%_string.

Definition SP : char := 32%N.
Definition NL : char := 10%N.

Fixpoint str_eqb (a b : str) : bool :=
  match a, b with
  | [], [] => true
  | x :: a', y :: b' => N.eqb x y && str_eqb a' b'
  | _, _ => false
  end.

(** [s.startswith(p)] *)
Fixpoint startswith (p s : str) : bool :=
  match p, s with
  | [], _ => true
  | x :: p', y :: s' => N.eqb x y && startswith p' s'
  | _ :: _, [] => false
  end.

(** [needle in hay] on strings: plain substring containment. *)
Fixpoint contains (needle hay : str) : bool :=
  startswith needle hay ||
  match hay with
  | [] => false
  | _ :: hay' => contains needle hay'
  end.

(** [sep.join(parts)] *)
Fixpoint join (sep : str) (parts : list str) : str :=
  match parts with
  | [] => []
  | [p] => p
  | p :: rest => p ++ sep ++ join sep rest
  end.

(** ** The character tables *)

Section Plain.
Local Open Scope N_scope.

(** The code points whose behaviour is fixed: ASCII, and the CJK unified
    ideographs U+4E00..U+9FA5 in which the lexicons write their non-Latin
    keywords. *)
Definition is_ascii (c : char) : bool := c <? 128.
Definition is_cjk (c : char) : bool := (19968 <=? c) && (c <=? 40869).
Definition plain (c : char) : bool := is_ascii c || is_cjk c.

Definition fold (c : char) : char :=
  if (65 <=? c) && (c <=? 90) then c + 32 else c.

Definition plain_alnum (c : char) : bool :=
  ((48 <=? c) && (c <=? 57)) || ((65 <=? c) && (c <=? 90)) ||
  ((97 <=? c) && (c <=? 122)) || is_cjk c.

Definition plain_space (c : char) : bool :=
  ((9 <=? c) && (c <=? 13)) || ((28 <=? c) && (c <=? 32)).

Definition plain_cased (c : char) : bool :=
  ((65 <=? c) && (c <=? 90)) || ((97 <=? c) && (c <=? 122)).

Definition plain_ignorable (c : char) : bool :=
  (c =? 39) || (c =? 46) || (c =? 58) || (c =? 94) || (c =? 96).

Lemma upper_alnum (c : char) : 65 <= c <= 90 -> plain_alnum c = true.
Proof.
  intros [H1 H2]. unfold plain_alnum.
  apply N.leb_le in H1, H2. rewrite H1, H2. simpl.
  rewrite orb_true_r. reflexivity.
Qed.

Lemma lower_alnum (c : char) : 97 <= c <= 122 -> plain_alnum c = true.
Proof.
  intros [H1 H2]. unfold plain_alnum.
  apply N.leb_le in H1, H2. rewrite H1, H2. simpl.
  rewrite orb_true_r. reflexivity.
Qed.

Lemma fold_cases (p c : char) :
  fold p = fold c ->
  p = c \/ (65 <= c <= 90 /\ 97 <= p <= 122)
  \/ (65 <= p <= 90 /\ 97 <= c <= 122).
Proof.
  unfold fold.
  destruct (N.leb_spec 65 p), (N.leb_spec p 90), (N.leb_spec 65 c),
    (N.leb_spec c 90); simpl; intros; lia.
Qed.

(** Folding the case of a plain character keeps it a word character or
    not. *)
Lemma fold_word (p c : char) :
  fold p = fold c ->
  plain_alnum c || N.eqb c 95 = plain_alnum p || N.eqb p 95.
Proof.
  intros H. destruct (fold_cases _ _ H) as [->|[[H1 H2]|[H1 H2]]].
  - reflexivity.
  - rewrite (@upper_alnum c H1), (@lower_alnum p H2). reflexivity.
  - rewrite (@upper_alnum p H1), (@lower_alnum c H2). reflexivity.
Qed.

End Plain.

(** What the interpreter's Unicode database provides to [str.lower] and to
    [re], and what it is known to do on plain code points.  [ic_eq p c] is the
    comparison of a pattern character [p] with a text character [c] under
    [re.IGNORECASE]. *)
Class Unicode := {
  to_lower_full : char -> str;
  is_cased : char -> bool;
  is_case_ignorable : char -> bool;
  is_alnum : char -> bool;
  is_space : char -> bool;
  ic_eq : char -> char -> bool;
  lower_plain : forall c, plain c = true -> to_lower_full c = [fold c];
  alnum_plain : forall c, plain c = true -> is_alnum c = plain_alnum c;
  space_plain : forall c, plain c = true -> is_space c = plain_space c;
  ic_plain : forall p c, plain p = true -> plain c = true ->
    ic_eq p c = N.eqb (fold p) (fold c);
  ic_word_plain : forall p c, plain p = true -> ic_eq p c = true ->
    is_alnum c || N.eqb c 95 = is_alnum p || N.eqb p 95;
  cased_space : is_cased SP = false;
  ignorable_space : is_case_ignorable SP = false
}.

(** The database restricted to plain code points: every other code point is a
    caseless symbol. *)
#[export, refine] Instance plain_unicode : Unicode := {|
  to_lower_full := fun c => [fold c];
  is_cased := plain_cased;
  is_case_ignorable := plain_ignorable;
  is_alnum := plain_alnum;
  is_space := plain_space;
  ic_eq := fun p c => N.eqb (fold p) (fold c)
|}.
Proof.
  all: try reflexivity.
  intros p c _ H. apply N.eqb_eq in H. apply fold_word, H.
Defined.

Section Strings.
Context {U : Unicode}.

(** [\w]: alphanumeric or underscore. *)
Definition is_word (c : char) : bool := is_alnum c || N.eqb c 95.

(** The context test of [str.lower] for GREEK CAPITAL LETTER SIGMA: it is
    final when a cased letter precedes it and none follows it, case-ignorable
    characters skipped on both sides. *)
Fixpoint skip_ignorable (s : str) : str :=
  match s with
  | [] => []
  | c :: s' => if is_case_ignorable c then skip_ignorable s' else s
  end.

Definition final_sigma (behind ahead : str) : bool :=
  match skip_ignorable behind with
  | [] => false
  | c :: _ => is_cased c
  end &&
  match skip_ignorable ahead with
  | [] => true
  | c :: _ => negb (is_cased c)
  end.

(** [s.lower()]; [behind] is the text already read, nearest character
    first. *)
Fixpoint lower_from (behind s : str) : str :=
  match s with
  | [] => []
  | c :: s' =>
    (if N.eqb c 931
     then [if final_sigma behind s' then 962%N else 963%N]
     else to_lower_full c) ++ lower_from (c :: behind) s'
  end.

Definition lower (s : str) : str := lower_from [] s.

(** [s.strip()] *)
Fixpoint lstrip (s : str) : str :=
  match s with
  | [] => []
  | c :: s' => if is_space c then lstrip s' else s
  end.

Definition rstrip (s : str) : str := rev (lstrip (rev s)).
Definition strip (s : str) : str := rstrip (lstrip s).

End Strings.

(** ** Regular expressions

    The fragment of [re] the sources use, always under [re.IGNORECASE]:
    literals, [.], [\s], [\w], their greedy [*] and [+], [\b], sequence,
    alternation and capturing groups. *)

Inductive atom : Type :=
| Lit (c : char)
| Dot
| Space
| Word.

Inductive regex : Type :=
| Eps
| One (a : atom)
| Star (a : atom)
| Plus (a : atom)
| Bound
| Seq (r1 r2 : regex)
| Alt (r1 r2 : regex)
| Group (r : regex).

(** A literal string, as [re.escape] produces it. *)
Fixpoint lit (s : str) : regex :=
  match s with
  | [] => Eps
  | c :: s' => Seq (One (Lit c)) (lit s')
  end.

Fixpoint cat (rs : list regex) : regex :=
  match rs with
  | [] => Eps
  | r :: rs' => Seq r (cat rs')
  end.

Fixpoint alt (r : regex) (rs : list regex) : regex :=
  match rs with
  | [] => r
  | r' :: rs' => Alt r (alt r' rs')
  end.

(** A position of the matcher in the text: the character just read, the text
    ahead, and the groups closed so far, in the order they closed. *)
Record cursor : Type := Cursor {
  behind : option char;
  ahead : str;
  groups : list str
}.

Section Matcher.
Context {U : Unicode}.

Definition atom_ok (a : atom) (c : char) : bool :=
  match a with
  | Lit p => ic_eq p c
  | Dot => negb (N.eqb c NL)
  | Space => is_space c
  | Word => is_word c
  end.

Definition word_before (b : option char) : bool :=
  match b with
  | Some c => is_word c
  | None => false
  end.

Definition word_ahead (s : str) : bool :=
  match s with
  | c :: _ => is_word c
  | [] => false
  end.

(** [\b]: exactly one of the two neighbours is a word character; the edges
    of the text count as non-word. *)
Definition at_boundary (b : option char) (s : str) : bool :=
  xorb (word_before b) (word_ahead s).

Section Exec.
Variable A : Type.

(** Greedy repetition of an atom: the longest run first, then shorter ones. *)
Fixpoint star (a : atom) (k : cursor -> option A)
    (b : option char) (s : str) (g : list str) : option A :=
  match s with
  | c :: s' =>
    if atom_ok a c then
      match star a k (Some c) s' g with
      | Some x => Some x
      | None => k (Cursor b s g)
      end
    else k (Cursor b s g)
  | [] => k (Cursor b s g)
  end.

(** The backtracking matcher, with [k] the rest of the pattern. *)
Fixpoint exec (r : regex) (k : cursor -> option A) (p : cursor) : option A :=
  match r with
  | Eps => k p
  | One a =>
    match ahead p with
    | c :: s' => if atom_ok a c then k (Cursor (Some c) s' (groups p)) else None
    | [] => None
    end
  | Star a => star a k (behind p) (ahead p) (groups p)
  | Plus a =>
    match ahead p with
    | c :: s' => if atom_ok a c then star a k (Some c) s' (groups p) else None
    | [] => None
    end
  | Bound => if at_boundary (behind p) (ahead p) then k p else None
  | Seq r1 r2 => exec r1 (exec r2 k) p
  | Alt r1 r2 =>
    match exec r1 k p with
    | Some x => Some x
    | None => exec r2 k p
    end
  | Group r' =>
    exec r'
      (fun q =>
         let n := (length (ahead p) - length (ahead q))%nat in
         k (Cursor (behind q) (ahead q) (groups q ++ [firstn n (ahead p)])))
      p
  end.

End Exec.

(** A match of [r] starting exactly here. *)
Definition match_here (r : regex) (b : option char) (s : str) : option cursor :=
  exec r (fun q => Some q) (Cursor b s []).

(** [re.search]: the first position, left to right, where [r] matches. *)
Fixpoint search_from (r : regex) (b : option char) (s : str) : option cursor :=
  match match_here r b s with
  | Some q => Some q
  | None =>
    match s with
    | c :: s' => search_from r (Some c) s'
    | [] => None
    end
  end.

Definition search (r : regex) (s : str) : option cursor := search_from r None s.

Definition found (r : regex) (s : str) : bool :=
  match search r s with
  | Some _ => true
  | None => false
  end.

(** [re.findall], each match given by its start offset.  After a match the
    scan resumes where the match ended, one character further when the match
    was empty; [skip] counts the characters still covered by the last
    match. *)
Fixpoint scan (r : regex) (skip i : nat) (b : option char) (s : str) : list nat :=
  match skip with
  | S skip' =>
    match s with
    | c :: s' => scan r skip' (S i) (Some c) s'
    | [] => []
    end
  | O =>
    match match_here r b s with
    | Some q =>
      i :: match s with
           | c :: s' =>
             scan r (length s - length (ahead q) - 1) (S i) (Some c) s'
           | [] => []
           end
    | None =>
      match s with
      | c :: s' => scan r 0 (S i) (Some c) s'
      | [] => []
      end
    end
  end.

Definition findall (r : regex) (s : str) : list nat := scan r 0 0 None s.

End Matcher.

(** ** issue_classifier.py *)

Inductive weight_level : Type := high | medium | low.

Inductive category : Type := bug | enhancement | other.

(** A keyword table: the weight tiers in the order the dict lists them. *)
Definition lexicon := list (weight_level * list str).

Definition bug_keywords : lexicon :=
  [ (high,
     [ py "crash"; py "broken"; py "error"; py "exception"; py "failed";
       py "failure"; py "bug"; py "issue"; py "incorrect"; py "wrong";
       py "unexpected"; py "regression"; py "defect"; py "glitch"; py "flaw";
       py "崩溃"; py "错误"; py "失败"; py "异常"; py "故障"; py "缺陷";
       py "问题"; py "不正确"; py "意外" ]);
    (medium,
     [ py "fix"; py "patch"; py "repair"; py "debug"; py "troubleshoot";
       py "not working"; py "does not work"; py "unable to"; py "cannot";
       py "can't"; py "won't"; py "doesn't"; py "problem"; py "conflict";
       py "修复"; py "调试"; py "无法"; py "不能"; py "冲突"; py "解决";
       py "处理" ]);
    (low,
     [ py "improve"; py "optimize"; py "refactor"; py "cleanup"; py "update";
       py "upgrade"; py "migrate";
       py "改进"; py "优化"; py "重构"; py "清理"; py "更新"; py "升级";
       py "迁移" ]) ].

Definition enhancement_keywords : lexicon :=
  [ (high,
     [ py "feature"; py "enhancement"; py "add"; py "new"; py "implement";
       py "introduce"; py "support"; py "request"; py "propose"; py "suggest";
       py "wish"; py "extend"; py "expand"; py "create";
       py "功能"; py "增强"; py "添加"; py "新增"; py "实现"; py "引入";
       py "支持"; py "请求"; py "建议"; py "希望"; py "扩展"; py "创建" ]);
    (medium,
     [ py "allow"; py "enable"; py "provide"; py "option"; py "setting";
       py "config"; py "custom"; py "ability"; py "capability";
       py "integration"; py "api"; py "interface"; py "module";
       py "允许"; py "启用"; py "提供"; py "选项"; py "设置"; py "配置";
       py "自定义"; py "能力"; py "集成"; py "接口"; py "模块" ]);
    (low,
     [ py "improve"; py "enhance"; py "upgrade"; py "extend"; py "expand";
       py "modify"; py "change";
       py "改进"; py "增强"; py "升级"; py "扩展"; py "修改"; py "变更" ]) ].

(** [\s+] *)
Definition ws1 : regex := Plus Space.

Definition template_patterns : list (category * list regex) :=
  [ (bug,
     [ cat [lit (py "bug"); ws1; lit (py "report"); ws1; lit (py "template")];
       cat [lit (py "bug"); ws1; lit (py "template")];
       cat [lit (py "issue"); ws1; lit (py "template")];
       cat [lit (py "error"); ws1; lit (py "report")];
       lit (py "故障报告模板");
       lit (py "问题报告模板") ]);
    (enhancement,
     [ cat [lit (py "feature"); ws1; lit (py "request"); ws1;
            lit (py "template")];
       cat [lit (py "feature"); ws1; lit (py "template")];
       cat [lit (py "enhancement"); ws1; lit (py "request")];
       lit (py "功能请求模板");
       lit (py "功能建议模板") ]) ].

(** [exclude_keywords['other']] *)
Definition exclude_keywords : list str :=
  [ py "question"; py "help"; py "discussion"; py "info"; py "information";
    py "clarification"; py "documentation"; py "readme"; py "guide";
    py "tutorial"; py "example"; py "meta";
    py "问题"; py "帮助"; py "讨论"; py "信息"; py "说明"; py "文档";
    py "指南"; py "教程"; py "示例"; py "元" ].

Definition weight_multiplier (w : weight_level) : Q :=
  match w with
  | high => 3
  | medium => 2
  | low => 1
  end.

(** [r'\b' + re.escape(keyword) + r'\b'] *)
Definition keyword_pattern (keyword : str) : regex :=
  Seq Bound (Seq (lit keyword) Bound).

Definition of_nat (n : nat) : Q := inject_Z (Z.of_nat n).

(** [x < y] and [x <= y] on scores, as tests. *)
Definition Qltb (x y : Q) : bool :=
  match x ?= y with
  | Lt => true
  | _ => false
  end.

Definition Qleb (x y : Q) : bool := negb (Qltb y x).

Section Classifier.
Context {U : Unicode}.

(** [len(re.findall(pattern, text_lower, re.IGNORECASE))] *)
Definition matches (keyword text_lower : str) : nat :=
  length (findall (keyword_pattern keyword) text_lower).

(** The inner loop of [_calculate_score] over the keywords of one tier. *)
Definition score_keywords (w : Q) (text_lower : str)
    (keywords : list str) (total_score : Q) : Q :=
  fold_left (fun total keyword => total + of_nat (matches keyword text_lower) * w)
    keywords total_score.

Definition _calculate_score (text : str) (keyword_dict : lexicon) : Q :=
  match text with
  | [] => 0
  | _ =>
    let text_lower := lower text in
    fold_left
      (fun total_score tier =>
         score_keywords (weight_multiplier (fst tier)) text_lower (snd tier)
           total_score)
      keyword_dict 0
  end.

(** The inner loop of [_check_templates]: the first pattern of one category
    that is found in the text. *)
Fixpoint any_pattern (patterns : list regex) (text_lower : str) : bool :=
  match patterns with
  | [] => false
  | pattern :: rest =>
    if found pattern text_lower then true else any_pattern rest text_lower
  end.

Fixpoint check_categories (table : list (category * list regex))
    (text_lower : str) : Q * category :=
  match table with
  | [] => (0, other)
  | (c, patterns) :: rest =>
    if any_pattern patterns text_lower then (10, c)
    else check_categories rest text_lower
  end.

Definition _check_templates (text : str) : Q * category :=
  match text with
  | [] => (0, other)
  | _ => check_categories template_patterns (lower text)
  end.

Definition _check_exclude_patterns (text : str) : Q :=
  match text with
  | [] => 0
  | _ =>
    let text_lower := lower text in
    let exclude_count :=
      fold_left (fun n keyword => (n + matches keyword text_lower)%nat)
        exclude_keywords 0%nat in
    of_nat exclude_count * 2
  end.

(** [f"{title} {body}"], then [" " + " ".join(labels)] when there are
    labels.  [labels] is the list the caller passes; [None] and the empty
    list behave alike. *)
Definition combined_text (title body : str) (labels : list str) : str :=
  let text := title ++ [SP] ++ body in
  match labels with
  | [] => text
  | _ => text ++ [SP] ++ join [SP] labels
  end.

(** Step 4 of [classify_issue]: the label bonuses, added to the pair of the
    bug score and the enhancement score. *)
Definition label_bonus (scores : Q * Q) (label : str) : Q * Q :=
  let label_lower := lower label in
  if contains (py "bug") label_lower || contains (py "fix") label_lower
  then (fst scores + 2, snd scores)
  else if contains (py "feature") label_lower
          || contains (py "enhancement") label_lower
          || contains (py "request") label_lower
  then (fst scores, snd scores + 2)
  else scores.

Definition with_labels (bug_score enhancement_score : Q) (labels : list str)
    : Q * Q :=
  fold_left label_bonus labels (bug_score, enhancement_score).

Definition min_threshold : Q := 1.

(** Steps 5 and 6 of [classify_issue]. *)
Definition decide (bug_score enhancement_score exclude_score : Q) : category :=
  let final_bug_score := bug_score - exclude_score * (1 # 2) in
  let final_enhancement_score := enhancement_score - exclude_score * (1 # 2) in
  if Qltb 5 exclude_score then other
  else if Qltb final_enhancement_score final_bug_score
          && Qleb min_threshold final_bug_score then bug
  else if Qltb final_bug_score final_enhancement_score
          && Qleb min_threshold final_enhancement_score then enhancement
  else other.

Definition classify_issue (title body : str) (labels : list str) : category :=
  let text := combined_text title body labels in
  let '(template_score, template_category) := _check_templates text in
  if Qltb 0 template_score then template_category
  else
    let bug_score := _calculate_score text bug_keywords in
    let enhancement_score := _calculate_score text enhancement_keywords in
    let exclude_score := _check_exclude_patterns text in
    let '(bug_score, enhancement_score) :=
      with_labels bug_score enhancement_score labels in
    decide bug_score enhancement_score exclude_score.

Definition get_classification_confidence (title body : str)
    (labels : list str) : category * Q :=
  let text := combined_text title body labels in
  let c := classify_issue title body labels in
  let bug_score := _calculate_score text bug_keywords in
  let enhancement_score := _calculate_score text enhancement_keywords in
  let exclude_score := _check_exclude_patterns text in
  let confidence :=
    match c with
    | bug => Qmin (bug_score / (bug_score + enhancement_score + 1)) 1
    | enhancement =>
      Qmin (enhancement_score / (bug_score + enhancement_score + 1)) 1
    | other =>
      exclude_score / (exclude_score + bug_score + enhancement_score + 1)
    end in
  (c, confidence).

End Classifier.

(** ** analyze.py: the suitability filters *)

(** An issue as [parse_markdown_files] builds it: [issue['title']],
    [issue['body']], [issue['labels']]. *)
Record issue : Type := Issue {
  issue_title : str;
  issue_body : str;
  issue_labels : list str
}.

Definition positive_keywords : list str :=
  [ py "implement"; py "add"; py "create"; py "build"; py "develop";
    py "feature"; py "enhancement"; py "optimization"; py "refactor";
    py "improve"; py "extend"; py "integrate"; py "support"; py "algorithm";
    py "function"; py "method"; py "class"; py "module"; py "component";
    py "performance"; py "efficiency"; py "speed"; py "memory"; py "cache";
    py "optimize" ].

Definition negative_keywords : list str :=
  [ py "typo"; py "spelling"; py "grammar"; py "format"; py "style";
    py "lint"; py "cleanup"; py "deprecated"; py "remove"; py "delete";
    py "security"; py "vulnerability"; py "hack"; py "workaround";
    py "temporary"; py "patch"; py "hotfix"; py "urgent"; py "critical";
    py "broken build"; py "missing import"; py "syntax error" ].

Definition cross_platform_keywords : list str :=
  [ py "cross-platform"; py "cross platform"; py "platform independent";
    py "multiplatform"; py "windows"; py "macos"; py "mac os"; py "linux";
    py "ubuntu"; py "debian"; py "centos"; py "ios"; py "android"; py "web";
    py "browser"; py "chrome"; py "firefox"; py "safari";
    py "compatibility"; py "portable"; py "mobile"; py "desktop";
    py "native"; py "operating system"; py "os-specific";
    py "platform-specific" ].

Definition moderate_bug_keywords : list str :=
  [ py "algorithm"; py "performance"; py "optimization"; py "logic";
    py "calculation"; py "rendering"; py "display"; py "interaction";
    py "behavior"; py "refactor" ].

Definition positive_labels : list str :=
  [ py "enhancement"; py "feature"; py "good first issue"; py "help wanted";
    py "performance"; py "optimization"; py "refactor"; py "algorithm";
    py "implementation" ].

Definition negative_labels : list str :=
  [ py "bug"; py "documentation"; py "maintenance"; py "security";
    py "cleanup"; py "chore"; py "wontfix"; py "duplicate"; py "question";
    py "discussion" ].

(** [\w+] *)
Definition word1 : regex := Plus Word.

Definition specific_patterns : list regex :=
  [ cat [lit (py "implement"); ws1; word1];
    cat [lit (py "add"); ws1; word1; ws1; lit (py "support")];
    cat [lit (py "create"); ws1; word1];
    cat [lit (py "build"); ws1; word1];
    cat [lit (py "develop"); ws1; word1];
    cat [lit (py "integrate"); ws1; word1] ].

Definition complexity_indicators : list str :=
  [ py "algorithm"; py "data structure"; py "optimization";
    py "performance"; py "efficiency"; py "scaling"; py "memory"; py "cpu";
    py "cache"; py "parallel"; py "async"; py "concurrent" ].

Definition bug_patterns : list regex :=
  [ cat [lit (py "fix"); ws1;
         alt (lit (py "algorithm"))
           [lit (py "logic"); lit (py "calculation"); lit (py "performance")]];
    cat [lit (py "resolve"); ws1;
         alt (lit (py "performance"))
           [lit (py "memory"); lit (py "rendering")]];
    cat [lit (py "correct"); ws1;
         alt (lit (py "behavior"))
           [lit (py "logic"); lit (py "calculation")]];
    cat [lit (py "improve"); ws1;
         alt (lit (py "performance"))
           [lit (py "efficiency"); lit (py "algorithm")]] ].

(** [x in xs] on a list of strings. *)
Definition mem (x : str) (xs : list str) : bool := existsb (str_eqb x) xs.

(** The early-return loops: the first keyword of the list that passes the
    test. *)
Definition first_hit (test : str -> bool) (keywords : list str) : option str :=
  find test keywords.

Section Suitability.
Context {U : Unicode}.

Definition is_suitable_programming_issue (i : issue) : bool * str :=
  let title := lower (issue_title i) in
  let body := lower (issue_body i) in
  let labels := map lower (issue_labels i) in
  match first_hit (fun keyword => contains keyword (firstn 100 title))
          negative_keywords with
  | Some keyword =>
    (false, py "Contains negative keyword: '" ++ keyword ++ py "'")
  | None =>
  match first_hit
          (fun keyword => contains keyword (lower title)
                          || contains keyword (lower (firstn 500 body)))
          cross_platform_keywords with
  | Some keyword =>
    (false,
     py "Cross-platform issue not suitable for fixed environment: '"
       ++ keyword ++ py "'")
  | None =>
  match first_hit (fun label => mem label labels) negative_labels with
  | Some label => (false, py "Has negative label: '" ++ label ++ py "'")
  | None =>
    let has_positive_keyword :=
      existsb (fun keyword => contains keyword title
                              || contains keyword (firstn 500 body))
        positive_keywords in
    let has_positive_label :=
      existsb (fun label => mem label labels) positive_labels in
    let has_specific_pattern :=
      existsb (fun pattern => found pattern title) specific_patterns in
    let has_complexity :=
      existsb (fun indicator => contains indicator (lower body))
        complexity_indicators in
    let has_moderate_bug :=
      existsb (fun keyword => contains keyword (lower title)
                              || contains keyword (lower (firstn 500 body)))
        moderate_bug_keywords in
    let has_bug_pattern :=
      existsb (fun pattern => found pattern (lower title)) bug_patterns in
    if has_positive_label || has_positive_keyword || has_specific_pattern then
      if has_complexity
      then (true,
            py "Complex implementation challenge with good learning value")
      else (true,
            py "Clear implementation task suitable for programming exercise")
    else if has_moderate_bug || has_bug_pattern then
      (true, py "Moderate bug fix with good learning value")
    else if (20 <? length title)%nat
            && negb (existsb (fun neg => contains neg title) negative_keywords)
    then (true, py "Substantial request based on title length and content")
    else (false,
          py "Lacks clear implementation requirements or learning value")
  end end end.

End Suitability.

(** *** The LLM-backed filter *)

(** What [client.chat.completions.create] can do: raise an exception, given
    by its message [str(e)], or return a response, given by the [content] of
    each of its [choices] ([None] when a choice carries no text). *)
Inductive completion : Type :=
| Raises (e : str)
| Returns (choices : list (option str)).

(** The injected client: from the system and user prompts to a completion. *)
Definition llm_client := str -> str -> completion.

(** The [try] block: a value, or the message of the exception raised. *)
Definition attempt (A : Type) := (str + A)%type.

Definition bind_attempt {A B : Type} (x : attempt A) (f : A -> attempt B)
    : attempt B :=
  match x with
  | inl e => inl e
  | inr a => f a
  end.

Notation "x <- c1 ;; c2" := (bind_attempt c1 (fun x => c2))
  (at level 61, c1 at next level, right associativity).

Definition system_prompt_head : str := py
"You are an expert evaluator of programming exercises and challenges. Your task is to analyze GitHub issues and determine if they would be suitable as programming problems for educational purposes.

".

Definition system_prompt_examples (reference_problems : list str) : str :=
  py "REFERENCE EXAMPLES - Use these as benchmarks for suitable programming problems:

" ++ join [NL] (firstn 3 reference_problems) ++ py
"  # Limit to 3 examples to avoid overly long prompts

Based on these reference examples, evaluate whether new issues match the desired complexity and educational value.

".

Definition system_prompt_criteria : str := py
"CRITERIA FOR SUITABILITY:
- Should involve implementing new functionality, features, or algorithms
- Should have clear requirements and goals
- Should be educational and provide learning value
- For bug fixes: should be moderate complexity fixes that provide learning opportunities
  • Acceptable: algorithm bugs, logic errors, performance issues, UI/UX improvements
  • Not acceptable: simple typo fixes, urgent security patches, trivial configuration changes
- Should have complexity similar to the reference examples (if provided)
- Should be challenging but achievable for programming practice
- **IMPORTANT: Should NOT involve cross-platform compatibility issues (fixed Docker environment)**

ENVIRONMENT CONSTRAINTS:
- All programming problems will be solved in a fixed Docker environment
- Issues requiring cross-platform compatibility, OS-specific features, or multiple platform support are NOT suitable
- Focus on core functionality, algorithms, and logic rather than platform integration

BUG FIX COMPLEXITY GUIDELINES:
✓ Suitable bug fixes: algorithm implementation errors, performance bottlenecks, UI interaction bugs, data structure bugs, moderate refactoring needs
✗ Unsuitable bug fixes: syntax errors, typos, missing imports, urgent security vulnerabilities, broken builds, simple CSS fixes

CROSS-PLATFORM EXCLUSIONS:
✗ Not suitable: Windows/Mac/Linux compatibility, browser compatibility, mobile/desktop differences, OS-specific APIs, platform-specific UI, multi-environment deployment

Please respond with exactly one line in the format:
SUITABLE: [true/false] - [brief reason]

Examples of good responses:
SUITABLE: true - Clear implementation task with appropriate complexity
SUITABLE: false - Simple typo fix in documentation
SUITABLE: true - Algorithm optimization problem matching reference difficulty
SUITABLE: true - Moderate bug fix with educational value
SUITABLE: false - Critical security bug requiring immediate patch
SUITABLE: false - Cross-platform compatibility issue
SUITABLE: false - Platform-specific implementation
SUITABLE: false - Simple typo or syntax error fix
".

Definition build_system_prompt (reference_problems : list str) : str :=
  system_prompt_head
    ++ match reference_problems with
       | [] => []
       | _ => system_prompt_examples reference_problems
       end
    ++ system_prompt_criteria.

Definition build_user_prompt (title body : str) (labels : list str) : str :=
  py "Please analyze this GitHub issue and determine if it would be suitable as a programming exercise/challenge.

**Issue Title:** " ++ title ++ py "

**Labels:** "
    ++ match labels with
       | [] => py "None"
       | _ => join (py ", ") labels
       end
    ++ py "

**Description:**
" ++ firstn 2000 body ++ py "...

Based on the criteria and reference examples provided, is this issue suitable as a programming problem?".

(** [SUITABLE:\s*(true|false)\s*-\s*(.+)] *)
Definition suitable_pattern : regex :=
  cat [ lit (py "SUITABLE:"); Star Space;
        Group (Alt (lit (py "true")) (lit (py "false")));
        Star Space; lit (py "-"); Star Space;
        Group (Plus Dot) ].

Definition affirmative_words : list str :=
  [ py "true"; py "suitable"; py "yes"; py "good" ].

Section SuitabilityLLM.
Context {U : Unicode}.

(** [response.choices[0].message.content.strip()] *)
Definition response_text (c : completion) : attempt str :=
  match c with
  | Raises e => inl e
  | Returns [] => inl (py "list index out of range")
  | Returns (None :: _) =>
    inl (py "'NoneType' object has no attribute 'strip'")
  | Returns (Some content :: _) => inr (strip content)
  end.

(** The parse of the reply: everything of the [try] block after the text of
    the response is in hand. *)
Definition parse_reply (response_content : str) : bool * str :=
  match search suitable_pattern response_content with
  | Some m =>
    let is_suitable := str_eqb (lower (nth 0 (groups m) [])) (py "true") in
    let reason := strip (nth 1 (groups m) []) in
    (is_suitable, py "LLM analysis: " ++ reason)
  | None =>
    if existsb (fun word => contains word (lower response_content))
         affirmative_words
    then (true,
          py "LLM assessment: " ++ firstn 100 response_content ++ py "...")
    else (false,
          py "LLM assessment: " ++ firstn 100 response_content ++ py "...")
  end.

Definition is_suitable_programming_issue_llm (i : issue) (client : llm_client)
    (reference_problems : list str) : bool * str :=
  let title := issue_title i in
  let body := issue_body i in
  let labels := issue_labels i in
  let system_prompt := build_system_prompt reference_problems in
  let user_prompt := build_user_prompt title body labels in
  let tried :=
    response_content <- response_text (client system_prompt user_prompt) ;;
    inr (parse_reply response_content) in
  match tried with
  | inr verdict => verdict
  | inl e => (false, py "LLM analysis error: " ++ e)
  end.

End SuitabilityLLM.

(** * Properties *)

(** ** Scores as rationals *)

Lemma Qltb_lt (x y : Q) : Qltb x y = true <-> x < y.
Proof.
  unfold Qltb. rewrite Qlt_alt. destruct (x ?= y); split; congruence.
Qed.

Lemma Qltb_ge (x y : Q) : Qltb x y = false <-> y <= x.
Proof.
  split; intros H.
  - apply Qnot_lt_le. intros L. apply Qltb_lt in L. congruence.
  - destruct (Qltb x y) eqn:E; [|reflexivity].
    apply Qltb_lt in E. exfalso. exact (Qlt_not_le _ _ E H).
Qed.

Lemma Qleb_le (x y : Q) : Qleb x y = true <-> x <= y.
Proof.
  unfold Qleb. rewrite negb_true_iff. apply Qltb_ge.
Qed.

Lemma Qleb_gt (x y : Q) : Qleb x y = false <-> y < x.
Proof.
  unfold Qleb. rewrite negb_false_iff. apply Qltb_lt.
Qed.

Lemma of_nat_nonneg (n : nat) : 0 <= of_nat n.
Proof.
  unfold of_nat, Qle. simpl. lia.
Qed.

Lemma of_nat_plus (n m : nat) : of_nat (n + m) == of_nat n + of_nat m.
Proof.
  unfold of_nat. rewrite Nat2Z.inj_add, inject_Z_plus. reflexivity.
Qed.

Lemma weight_multiplier_pos (w : weight_level) : 0 < weight_multiplier w.
Proof.
  destruct w; reflexivity.
Qed.

(** The sum of a list of scores. *)
Definition Qsum (l : list Q) : Q := fold_right Qplus 0 l.

Lemma Qsum_nonneg (l : list Q) : Forall (fun x => 0 <= x) l -> 0 <= Qsum l.
Proof.
  induction 1 as [|x l Hx _ IH]; simpl.
  - apply Qle_refl.
  - lra.
Qed.

Lemma Qsum_app (l1 l2 : list Q) : Qsum (l1 ++ l2) == Qsum l1 + Qsum l2.
Proof.
  induction l1 as [|x l1 IH]; simpl.
  - ring.
  - rewrite IH. ring.
Qed.

Lemma Qsum_zero (A : Type) (f : A -> Q) (l : list A) :
  (forall x, f x == 0) -> Qsum (map f l) == 0.
Proof.
  intros H. induction l as [|x l IH]; simpl.
  - reflexivity.
  - rewrite IH, H. reflexivity.
Qed.

Section ScoreSum.
Context {U : Unicode}.

(** The contribution of one tier, as the specification words it: over the
    keywords of the tier, the count of matches times the weight. *)
Definition tier_sum (text_lower : str) (tier : weight_level * list str) : Q :=
  Qsum (map (fun keyword =>
               of_nat (matches keyword text_lower) * weight_multiplier (fst tier))
            (snd tier)).

Definition weighted_sum (text : str) (keyword_dict : lexicon) : Q :=
  Qsum (map (tier_sum (lower text)) keyword_dict).

Lemma score_keywords_sum (w : Q) (text_lower : str) (keywords : list str)
    (total : Q) :
  score_keywords w text_lower keywords total ==
  total + Qsum (map (fun keyword => of_nat (matches keyword text_lower) * w)
                    keywords).
Proof.
  unfold score_keywords. revert total.
  induction keywords as [|k ks IH]; intros total; simpl.
  - ring.
  - rewrite IH. ring.
Qed.

Lemma score_tiers_sum (text_lower : str) (keyword_dict : lexicon) (total : Q) :
  fold_left
    (fun total_score tier =>
       score_keywords (weight_multiplier (fst tier)) text_lower (snd tier)
         total_score)
    keyword_dict total ==
  total + Qsum (map (tier_sum text_lower) keyword_dict).
Proof.
  revert total.
  induction keyword_dict as [|tier rest IH]; intros total; simpl.
  - ring.
  - rewrite IH, score_keywords_sum. unfold tier_sum. ring.
Qed.

Lemma tier_sum_nonneg (text_lower : str) (tier : weight_level * list str) :
  0 <= tier_sum text_lower tier.
Proof.
  unfold tier_sum. apply Qsum_nonneg, Forall_forall.
  intros x Hx. apply in_map_iff in Hx. destruct Hx as [k [<- _]].
  apply Qmult_le_0_compat.
  - apply of_nat_nonneg.
  - apply Qlt_le_weak, weight_multiplier_pos.
Qed.

Lemma weighted_sum_nonneg (text : str) (keyword_dict : lexicon) :
  0 <= weighted_sum text keyword_dict.
Proof.
  unfold weighted_sum. apply Qsum_nonneg, Forall_forall.
  intros x Hx. apply in_map_iff in Hx. destruct Hx as [t [<- _]].
  apply tier_sum_nonneg.
Qed.

(** Nothing matches in the empty text: [\b] fails at its only position. *)
Lemma matches_empty (keyword : str) : matches keyword [] = 0%nat.
Proof.
  reflexivity.
Qed.

Lemma tier_sum_empty (tier : weight_level * list str) : tier_sum [] tier == 0.
Proof.
  unfold tier_sum. destruct tier as [w ks]. simpl.
  induction ks as [|k ks IH]; simpl.
  - reflexivity.
  - rewrite IH, matches_empty. unfold of_nat. simpl. ring.
Qed.

Lemma weighted_sum_empty (keyword_dict : lexicon) :
  weighted_sum [] keyword_dict == 0.
Proof.
  unfold weighted_sum. simpl.
  induction keyword_dict as [|t rest IH]; simpl.
  - reflexivity.
  - rewrite IH, tier_sum_empty. ring.
Qed.

Lemma calculate_score_sum (text : str) (keyword_dict : lexicon) :
  _calculate_score text keyword_dict == weighted_sum text keyword_dict.
Proof.
  destruct text as [|c text].
  - simpl. symmetry. apply weighted_sum_empty.
  - unfold _calculate_score, weighted_sum.
    rewrite score_tiers_sum. ring.
Qed.

Lemma calculate_score_nonneg (text : str) (keyword_dict : lexicon) :
  0 <= _calculate_score text keyword_dict.
Proof.
  rewrite calculate_score_sum. apply weighted_sum_nonneg.
Qed.

Lemma exclude_count_nonneg (text : str) : 0 <= _check_exclude_patterns text.
Proof.
  unfold _check_exclude_patterns. destruct text.
  - apply Qle_refl.
  - apply Qmult_le_0_compat; [apply of_nat_nonneg | discriminate].
Qed.

End ScoreSum.

(** ** The decision rule and the confidence *)

Section Decision.
Context {U : Unicode}.

(** The scores on which [classify_issue] decides: the raw scores of the
    combined text, with the label bonuses added. *)
Definition boosted_scores (title body : str) (labels : list str) : Q * Q :=
  let text := combined_text title body labels in
  with_labels (_calculate_score text bug_keywords)
    (_calculate_score text enhancement_keywords) labels.

Definition final_bug (title body : str) (labels : list str) : Q :=
  fst (boosted_scores title body labels)
  - _check_exclude_patterns (combined_text title body labels) * (1 # 2).

Definition final_enhancement (title body : str) (labels : list str) : Q :=
  snd (boosted_scores title body labels)
  - _check_exclude_patterns (combined_text title body labels) * (1 # 2).

Lemma decide_override (b e x : Q) : 5 < x -> decide b e x = other.
Proof.
  intros H. unfold decide. apply Qltb_lt in H. rewrite H. reflexivity.
Qed.

Lemma decide_bug (b e x : Q) :
  x <= 5 ->
  (decide b e x = bug <->
   e - x * (1 # 2) < b - x * (1 # 2) /\ 1 <= b - x * (1 # 2)).
Proof.
  intros H. unfold decide, min_threshold. apply Qltb_ge in H. rewrite H.
  destruct (Qltb (e - x * (1 # 2)) (b - x * (1 # 2))) eqn:L1;
  destruct (Qleb 1 (b - x * (1 # 2))) eqn:T1; simpl;
  try (destruct (Qltb (b - x * (1 # 2)) (e - x * (1 # 2))) eqn:L2;
       destruct (Qleb 1 (e - x * (1 # 2))) eqn:T2; simpl);
  repeat match goal with
  | H : Qltb _ _ = true |- _ => apply Qltb_lt in H
  | H : Qltb _ _ = false |- _ => apply Qltb_ge in H
  | H : Qleb _ _ = true |- _ => apply Qleb_le in H
  | H : Qleb _ _ = false |- _ => apply Qleb_gt in H
  end;
  split; try discriminate; try (intros [? ?]; exfalso; lra);
  try (intros _; split; assumption); try reflexivity.
Qed.

Lemma decide_enhancement (b e x : Q) :
  x <= 5 ->
  (decide b e x = enhancement <->
   b - x * (1 # 2) < e - x * (1 # 2) /\ 1 <= e - x * (1 # 2)).
Proof.
  intros H. unfold decide, min_threshold. apply Qltb_ge in H. rewrite H.
  destruct (Qltb (e - x * (1 # 2)) (b - x * (1 # 2))) eqn:L1;
  destruct (Qleb 1 (b - x * (1 # 2))) eqn:T1; simpl;
  destruct (Qltb (b - x * (1 # 2)) (e - x * (1 # 2))) eqn:L2;
  destruct (Qleb 1 (e - x * (1 # 2))) eqn:T2; simpl;
  repeat match goal with
  | H : Qltb _ _ = true |- _ => apply Qltb_lt in H
  | H : Qltb _ _ = false |- _ => apply Qltb_ge in H
  | H : Qleb _ _ = true |- _ => apply Qleb_le in H
  | H : Qleb _ _ = false |- _ => apply Qleb_gt in H
  end;
  split; try discriminate; try (intros [? ?]; exfalso; lra);
  try (intros _; split; assumption); try reflexivity.
Qed.

Lemma decide_cases (b e x : Q) :
  decide b e x = bug \/ decide b e x = enhancement \/ decide b e x = other.
Proof.
  destruct (decide b e x); auto.
Qed.

Lemma decide_tie (b e x : Q) :
  b - x * (1 # 2) == e - x * (1 # 2) -> decide b e x = other.
Proof.
  intros H. destruct (Qlt_le_dec 5 x) as [L|L].
  - apply decide_override, L.
  - destruct (decide_cases b e x) as [D|[D|D]]; [| |exact D]; exfalso.
    + apply (decide_bug b e L) in D. lra.
    + apply (decide_enhancement b e L) in D. lra.
Qed.

(** With no template found, [classify_issue] is the decision rule on the
    boosted scores. *)
Lemma classify_without_template (title body : str) (labels : list str) :
  fst (_check_templates (combined_text title body labels)) == 0 ->
  classify_issue title body labels =
  decide (fst (boosted_scores title body labels))
         (snd (boosted_scores title body labels))
         (_check_exclude_patterns (combined_text title body labels)).
Proof.
  intros H. unfold classify_issue, boosted_scores.
  destruct (_check_templates (combined_text title body labels)) as [ts tc].
  simpl in H.
  assert (E : Qltb 0 ts = false) by (apply Qltb_ge; lra).
  rewrite E.
  destruct (with_labels _ _ labels) as [b e]. reflexivity.
Qed.

(** C2.  When the template matcher finds nothing (score 0): the category is
    [other] whenever the exclusion score exceeds 5; otherwise it is [bug]
    exactly when the final bug score is the larger and at least 1,
    [enhancement] exactly when the final enhancement score is the larger and
    at least 1, and [other] in every remaining case; a tie of the final
    scores always gives [other]. *)
Theorem classify_decision (title body : str) (labels : list str) :
  fst (_check_templates (combined_text title body labels)) == 0 ->
  let exclude_score :=
    _check_exclude_patterns (combined_text title body labels) in
  let fb := final_bug title body labels in
  let fe := final_enhancement title body labels in
  let c := classify_issue title body labels in
  (5 < exclude_score -> c = other) /\
  (exclude_score <= 5 ->
     (c = bug <-> fe < fb /\ 1 <= fb) /\
     (c = enhancement <-> fb < fe /\ 1 <= fe) /\
     (c = other <-> ~ (fe < fb /\ 1 <= fb) /\ ~ (fb < fe /\ 1 <= fe))) /\
  (fb == fe -> c = other).
Proof.
  intros H exclude_score fb fe c.
  assert (E : c = decide (fst (boosted_scores title body labels))
                         (snd (boosted_scores title body labels))
                         exclude_score)
    by (apply classify_without_template, H).
  split; [|split].
  - intros L. rewrite E. apply decide_override, L.
  - intros L.
    pose proof (decide_bug (fst (boosted_scores title body labels))
                  (snd (boosted_scores title body labels)) L) as B.
    pose proof (decide_enhancement (fst (boosted_scores title body labels))
                  (snd (boosted_scores title body labels)) L) as N.
    fold fb fe in B, N. unfold final_bug, final_enhancement in fb, fe.
    fold exclude_score in fb, fe. rewrite <- E in B, N.
    split; [exact B|]. split; [exact N|].
    split.
    + intros O. split; intros K.
      * apply B in K. congruence.
      * apply N in K. congruence.
    + intros [K1 K2]. destruct c; [exfalso; apply K1, B; reflexivity
                                  |exfalso; apply K2, N; reflexivity
                                  |reflexivity].
  - intros T. rewrite E. apply decide_tie. exact T.
Qed.

(** The confidence value, as the specification words it, from the category
    and the three raw scores. *)
Definition confidence_formula (c : category)
    (bugScore enhancementScore excludeScore : Q) : Q :=
  match c with
  | bug => Qmin (bugScore / (bugScore + enhancementScore + 1)) 1
  | enhancement => Qmin (enhancementScore / (bugScore + enhancementScore + 1)) 1
  | other => excludeScore / (excludeScore + bugScore + enhancementScore + 1)
  end.

(** C4.  [get_classification_confidence] returns the category of
    [classify_issue], and its confidence is the formula on the raw scores of
    the combined text, without label bonuses: two inputs with the same
    combined text have the same raw scores, and the same confidence as soon as
    their categories agree. *)
Theorem confidence_uses_raw_scores (title body : str) (labels : list str) :
  let text := combined_text title body labels in
  let r := get_classification_confidence title body labels in
  fst r = classify_issue title body labels /\
  snd r =
    confidence_formula (classify_issue title body labels)
      (_calculate_score text bug_keywords)
      (_calculate_score text enhancement_keywords)
      (_check_exclude_patterns text) /\
  forall title' body' labels',
    combined_text title' body' labels' = text ->
    let r' := get_classification_confidence title' body' labels' in
    (fst r' = fst r -> snd r' = snd r) /\
    snd r' =
      confidence_formula (fst r')
        (_calculate_score text bug_keywords)
        (_calculate_score text enhancement_keywords)
        (_check_exclude_patterns text).
Proof.
  intros text r. split; [reflexivity|]. split.
  - unfold r, get_classification_confidence, confidence_formula.
    destruct (classify_issue title body labels); reflexivity.
  - intros title' body' labels' E r'. split.
    + unfold r', r, get_classification_confidence. simpl. intros C.
      rewrite E, C. reflexivity.
    + unfold r', get_classification_confidence, confidence_formula. simpl.
      rewrite E. destruct (classify_issue title' body' labels'); reflexivity.
Qed.

Lemma ratio_bounds (a d : Q) : 0 <= a -> a <= d -> 0 < d -> 0 <= a / d <= 1.
Proof.
  intros Ha Hd Hp. split.
  - apply Qle_shift_div_l; [exact Hp | lra].
  - apply Qle_shift_div_r; [exact Hp | lra].
Qed.

(** C5.  The confidence lies between 0 and 1, and both denominators of the
    formula are strictly positive. *)
Theorem confidence_bounds (title body : str) (labels : list str) :
  let text := combined_text title body labels in
  let bug_score := _calculate_score text bug_keywords in
  let enhancement_score := _calculate_score text enhancement_keywords in
  let exclude_score := _check_exclude_patterns text in
  let confidence := snd (get_classification_confidence title body labels) in
  0 <= confidence /\ confidence <= 1 /\
  0 < bug_score + enhancement_score + 1 /\
  0 < exclude_score + bug_score + enhancement_score + 1.
Proof.
  intros text bug_score enhancement_score exclude_score confidence.
  pose proof (calculate_score_nonneg text bug_keywords) as Hb.
  pose proof (calculate_score_nonneg text enhancement_keywords) as He.
  pose proof (exclude_count_nonneg text) as Hx.
  fold bug_score in Hb. fold enhancement_score in He. fold exclude_score in Hx.
  assert (D1 : 0 < bug_score + enhancement_score + 1) by lra.
  assert (D2 : 0 < exclude_score + bug_score + enhancement_score + 1) by lra.
  assert (B : 0 <= confidence <= 1).
  { unfold confidence, get_classification_confidence. simpl.
    fold text. fold bug_score enhancement_score exclude_score.
    destruct (classify_issue title body labels).
    - destruct (@ratio_bounds bug_score (bug_score + enhancement_score + 1))
        as [L R]; try lra.
      split; [apply Q.min_glb; lra | apply Q.le_min_r].
    - destruct (@ratio_bounds enhancement_score
                  (bug_score + enhancement_score + 1)) as [L R]; try lra.
      split; [apply Q.min_glb; lra | apply Q.le_min_r].
    - apply ratio_bounds; lra. }
  destruct B as [B1 B2]. repeat split; assumption.
Qed.

End Decision.

Lemma classify_decision_witness :
  fst (_check_templates (combined_text (py "fix") (py "feature") [])) == 0 /\
  classify_issue (py "fix") (py "feature") [] = enhancement.
Proof.
  split; [reflexivity|].
  destruct (@classify_decision plain_unicode (py "fix") (py "feature") [])
    as [_ [H _]]; [reflexivity|].
  apply H;
    [vm_compute; discriminate
    |split; [vm_compute; reflexivity | vm_compute; discriminate]].
Defined.

(** ** Keyword patterns

    What the matcher does on [\b keyword \b], without the matcher. *)

Section KeywordPattern.
Context {U : Unicode}.

(** The keyword read at the head of the text, each character compared under
    [re.IGNORECASE]: the last character read and the text that remains. *)
Fixpoint ic_skip (k : str) (b : option char) (s : str)
    : option (option char * str) :=
  match k with
  | [] => Some (b, s)
  | p :: k' =>
    match s with
    | c :: s' => if ic_eq p c then ic_skip k' (Some c) s' else None
    | [] => None
    end
  end.

(** The keyword stands here as a whole word: it reads, with a word boundary
    before it and one after it. *)
Definition whole_word_here (k : str) (b : option char) (s : str) : bool :=
  at_boundary b s &&
  match ic_skip k b s with
  | Some (b', s') => at_boundary b' s'
  | None => false
  end.

Lemma exec_lit (A : Type) (k : str) (K : cursor -> option A)
    (b : option char) (s : str) (g : list str) :
  exec (lit k) K (Cursor b s g) =
  match ic_skip k b s with
  | Some (b', s') => K (Cursor b' s' g)
  | None => None
  end.
Proof.
  revert b s. induction k as [|p k IH]; intros b s; simpl.
  - reflexivity.
  - destruct s as [|c s']; [reflexivity|].
    destruct (ic_eq p c); [apply IH | reflexivity].
Qed.

Lemma ic_skip_length (k : str) (b : option char) (s : str)
    (b' : option char) (s' : str) :
  ic_skip k b s = Some (b', s') ->
  (length s = length k + length s')%nat.
Proof.
  revert b s. induction k as [|p k IH]; intros b s H; simpl in *.
  - injection H as _ <-. reflexivity.
  - destruct s as [|c s0]; [discriminate|].
    destruct (ic_eq p c); [|discriminate].
    apply IH in H. simpl. lia.
Qed.

Lemma ic_skip_short (k : str) (b : option char) (s : str) :
  (length s < length k)%nat -> ic_skip k b s = None.
Proof.
  intros L. destruct (ic_skip k b s) as [[b' s']|] eqn:E; [|reflexivity].
  apply ic_skip_length in E. lia.
Qed.

Lemma match_here_keyword (k : str) (b : option char) (s : str) :
  match_here (keyword_pattern k) b s =
  match ic_skip k b s with
  | Some (b', s') =>
    if whole_word_here k b s then Some (Cursor b' s' []) else None
  | None => None
  end.
Proof.
  unfold match_here, keyword_pattern, whole_word_here. simpl.
  destruct (at_boundary b s) eqn:B; simpl.
  - rewrite exec_lit. destruct (ic_skip k b s) as [[b' s']|]; [|reflexivity].
    simpl. reflexivity.
  - destruct (ic_skip k b s) as [[b' s']|]; reflexivity.
Qed.

(** The three steps of the scan on a keyword pattern. *)
Lemma scan_keyword_skip (k : str) (n i : nat) (b : option char)
    (c : char) (s : str) :
  scan (keyword_pattern k) (S n) i b (c :: s) =
  scan (keyword_pattern k) n (S i) (Some c) s.
Proof.
  reflexivity.
Qed.

Lemma scan_keyword_end (k : str) (i : nat) (b : option char) :
  scan (keyword_pattern k) 0 i b [] =
  if whole_word_here k b [] then [i] else [].
Proof.
  cbn [scan]. rewrite match_here_keyword.
  destruct (ic_skip k b []) as [[b' s']|] eqn:E.
  - destruct (whole_word_here k b []); reflexivity.
  - unfold whole_word_here. rewrite E, andb_false_r. reflexivity.
Qed.

Lemma scan_keyword_try (k : str) (i : nat) (b : option char)
    (c : char) (s : str) :
  scan (keyword_pattern k) 0 i b (c :: s) =
  if whole_word_here k b (c :: s)
  then i :: scan (keyword_pattern k) (length k - 1) (S i) (Some c) s
  else scan (keyword_pattern k) 0 (S i) (Some c) s.
Proof.
  cbn [scan]. rewrite match_here_keyword.
  destruct (ic_skip k b (c :: s)) as [[b' s']|] eqn:E.
  - destruct (whole_word_here k b (c :: s)); [|reflexivity].
    apply ic_skip_length in E. cbn [ahead].
    replace (length (c :: s) - length s' - 1)%nat with (length k - 1)%nat
      by lia.
    reflexivity.
  - unfold whole_word_here. rewrite E, andb_false_r. reflexivity.
Qed.

Lemma scan_keyword_nil (k : str) (n i : nat) (b : option char) :
  scan (keyword_pattern k) (S n) i b [] = [].
Proof.
  reflexivity.
Qed.

End KeywordPattern.

(** ** What a counted match is *)

Section WholeWord.
Context {U : Unicode}.

(** The last character of a text, if any. *)
Definition last_char (s : str) : option char :=
  match rev s with
  | c :: _ => Some c
  | [] => None
  end.

(** [m] is the keyword [k] up to the case of its letters. *)
Definition ic_equal (k m : str) : Prop :=
  Forall2 (fun p c => ic_eq p c = true) k m.

(** The keyword occurs in the text at offset [i] as a whole word: the text
    reads [pre ++ m ++ post] with [m] the keyword up to case, and [\b] holds
    on both sides of [m]. *)
Definition whole_word_at (k text : str) (i : nat) : Prop :=
  exists pre m post,
    text = pre ++ m ++ post /\ length pre = i /\ ic_equal k m /\
    at_boundary (last_char pre) (m ++ post) = true /\
    at_boundary (last_char (pre ++ m)) post = true.

Lemma last_char_snoc (s : str) (c : char) : last_char (s ++ [c]) = Some c.
Proof.
  unfold last_char. rewrite rev_app_distr. reflexivity.
Qed.

Lemma last_char_app (s m : str) :
  last_char (s ++ m) =
  match last_char m with
  | Some c => Some c
  | None => last_char s
  end.
Proof.
  unfold last_char. rewrite rev_app_distr.
  destruct (rev m); reflexivity.
Qed.

Lemma ic_skip_split (k : str) (b : option char) (s : str)
    (b' : option char) (s' : str) :
  ic_skip k b s = Some (b', s') ->
  exists m, s = m ++ s' /\ ic_equal k m /\
            b' = match last_char m with Some c => Some c | None => b end.
Proof.
  revert b s. induction k as [|p k IH]; intros b s H; simpl in H.
  - injection H as <- <-. exists []. repeat split. constructor.
  - destruct s as [|c s0]; [discriminate|].
    destruct (ic_eq p c) eqn:E; [|discriminate].
    apply IH in H. destruct H as [m [-> [Hm Hb]]].
    exists (c :: m). split; [reflexivity|]. split.
    + constructor; assumption.
    + rewrite Hb. change (c :: m) with ([c] ++ m).
      rewrite last_char_app. destruct (last_char m); reflexivity.
Qed.

Lemma whole_word_here_at (k pre s : str) :
  whole_word_here k (last_char pre) s = true ->
  whole_word_at k (pre ++ s) (length pre).
Proof.
  unfold whole_word_here. intros H. apply andb_true_iff in H.
  destruct H as [B1 B2].
  destruct (ic_skip k (last_char pre) s) as [[b' s']|] eqn:E; [|discriminate].
  apply ic_skip_split in E. destruct E as [m [-> [Hm Hb]]].
  exists pre, m, s'. repeat split; try assumption.
  rewrite last_char_app, <- Hb. exact B2.
Qed.

(** Every offset the scan reports is a whole-word occurrence. *)
Lemma scan_sound (k : str) (s pre : str) (skip j : nat) :
  In j (scan (keyword_pattern k) skip (length pre) (last_char pre) s) ->
  whole_word_at k (pre ++ s) j.
Proof.
  revert pre skip. induction s as [|c s IH]; intros pre skip H.
  - destruct skip as [|n]; [|contradiction].
    rewrite scan_keyword_end in H.
    destruct (whole_word_here k (last_char pre) []) eqn:E; [|contradiction].
    destruct H as [<-|[]]. apply whole_word_here_at, E.
  - assert (step : forall n,
      In j (scan (keyword_pattern k) n (S (length pre)) (Some c) s) ->
      whole_word_at k (pre ++ c :: s) j).
    { intros n Hn.
      replace (pre ++ c :: s) with ((pre ++ [c]) ++ s)
        by (rewrite <- app_assoc; reflexivity).
      apply (IH (pre ++ [c]) n).
      rewrite last_char_snoc, length_app, Nat.add_1_r. exact Hn. }
    destruct skip as [|n].
    + rewrite scan_keyword_try in H.
      destruct (whole_word_here k (last_char pre) (c :: s)) eqn:E.
      * destruct H as [<-|H]; [apply whole_word_here_at, E | eapply step, H].
      * eapply step, H.
    + rewrite scan_keyword_skip in H. eapply step, H.
Qed.

Lemma findall_sound (k text : str) (j : nat) :
  In j (findall (keyword_pattern k) text) -> whole_word_at k text j.
Proof.
  intros H. apply (@scan_sound k text [] 0%nat j). exact H.
Qed.

(** A keyword that begins and ends with word characters is never counted
    inside a longer word: the characters next to a counted match, if any, are
    not word characters. *)
Lemma is_word_plain (c : char) :
  plain c = true -> is_word c = @is_word plain_unicode c.
Proof.
  intros H. unfold is_word. rewrite (alnum_plain c H). reflexivity.
Qed.

Lemma ic_equal_word (p c : char) :
  plain p = true -> ic_eq p c = true -> is_word c = @is_word plain_unicode p.
Proof.
  intros Hp H. rewrite <- (is_word_plain p Hp).
  unfold is_word. apply ic_word_plain; assumption.
Qed.

Lemma ic_equal_length (k m : str) : ic_equal k m -> length m = length k.
Proof.
  induction 1; simpl; congruence.
Qed.

(** The keyword begins, or ends, with a plain word character. *)
Definition first_word (k : str) : bool :=
  match k with
  | c :: _ => plain c && @is_word plain_unicode c
  | [] => false
  end.

Definition last_word (k : str) : bool :=
  match last_char k with
  | Some c => plain c && @is_word plain_unicode c
  | None => false
  end.

Lemma ic_equal_first (k m post : str) :
  ic_equal k m -> first_word k = true -> word_ahead (m ++ post) = true.
Proof.
  intros H F. destruct H as [|p c k' m' E _]; [discriminate|].
  simpl in *. apply andb_true_iff in F. destruct F as [Fp Fw].
  rewrite (@ic_equal_word p c Fp E). exact Fw.
Qed.

Lemma ic_equal_rev (k m : str) : ic_equal k m -> ic_equal (rev k) (rev m).
Proof.
  induction 1; simpl.
  - constructor.
  - apply Forall2_app; [assumption|]. constructor; [assumption|constructor].
Qed.

Lemma ic_equal_last (k m pre : str) :
  ic_equal k m -> last_word k = true ->
  word_before (last_char (pre ++ m)) = true.
Proof.
  intros H L. apply ic_equal_rev in H.
  unfold last_word, last_char in L. rewrite last_char_app. unfold last_char.
  destruct H as [|p c k' m' E _]; [discriminate|].
  simpl. apply andb_true_iff in L. destruct L as [Lp Lw].
  rewrite (@ic_equal_word p c Lp E). exact Lw.
Qed.

Definition standalone_at (k text : str) (i : nat) : Prop :=
  exists pre m post,
    text = pre ++ m ++ post /\ length pre = i /\ ic_equal k m /\
    word_before (last_char pre) = false /\ word_ahead post = false.

Lemma whole_word_standalone (k text : str) (i : nat) :
  first_word k = true -> last_word k = true ->
  whole_word_at k text i -> standalone_at k text i.
Proof.
  intros F L [pre [m [post [E [Hi [Hm [B1 B2]]]]]]].
  exists pre, m, post. repeat split; try assumption.
  - unfold at_boundary in B1. rewrite (ic_equal_first post Hm F) in B1.
    destruct (word_before (last_char pre)); [discriminate|reflexivity].
  - unfold at_boundary in B2. rewrite (ic_equal_last pre Hm L) in B2.
    destruct (word_ahead post); [discriminate|reflexivity].
Qed.

End WholeWord.

(** ** Plain texts

    On texts of plain code points every database agrees with
    [plain_unicode], so that what the functions do there can be computed. *)

Definition plain_str (s : str) : bool := forallb plain s.

Definition plain_opt (b : option char) : bool :=
  match b with
  | Some c => plain c
  | None => true
  end.

Section Transfer.
Context {U : Unicode}.

Lemma sigma_not_plain (c : char) : plain c = true -> N.eqb c 931 = false.
Proof.
  intros H. destruct (N.eqb_spec c 931) as [->|]; [discriminate|reflexivity].
Qed.

Lemma lower_from_plain (behind s : str) :
  plain_str s = true -> lower_from behind s = map fold s.
Proof.
  revert behind. induction s as [|c s IH]; intros behind H; simpl in *.
  - reflexivity.
  - apply andb_true_iff in H. destruct H as [Hc Hs].
    rewrite (sigma_not_plain c Hc), (lower_plain c Hc), IH by assumption.
    reflexivity.
Qed.

Lemma lower_plain_str (s : str) : plain_str s = true -> lower s = map fold s.
Proof.
  apply lower_from_plain.
Qed.

Lemma word_before_plain (b : option char) :
  plain_opt b = true -> word_before b = @word_before plain_unicode b.
Proof.
  destruct b as [c|]; simpl; [apply is_word_plain | reflexivity].
Qed.

Lemma word_ahead_plain (s : str) :
  plain_str s = true -> word_ahead s = @word_ahead plain_unicode s.
Proof.
  destruct s as [|c s]; simpl; [reflexivity|].
  intros H. apply andb_true_iff in H. apply is_word_plain, H.
Qed.

Lemma at_boundary_plain (b : option char) (s : str) :
  plain_opt b = true -> plain_str s = true ->
  at_boundary b s = @at_boundary plain_unicode b s.
Proof.
  intros Hb Hs. unfold at_boundary.
  rewrite (word_before_plain b Hb), (word_ahead_plain s Hs). reflexivity.
Qed.

Lemma ic_skip_plain (k : str) (b : option char) (s : str) :
  plain_str k = true -> plain_str s = true ->
  ic_skip k b s = @ic_skip plain_unicode k b s.
Proof.
  revert b s. induction k as [|p k IH]; intros b s Hk Hs; simpl in *.
  - reflexivity.
  - destruct s as [|c s]; [reflexivity|]. simpl in Hs.
    apply andb_true_iff in Hk, Hs. destruct Hk as [Hp Hk], Hs as [Hc Hs].
    rewrite (ic_plain p c Hp Hc). destruct (N.eqb (fold p) (fold c)).
    + apply IH; assumption.
    + reflexivity.
Qed.

Lemma ic_skip_keeps_plain (k : str) (b : option char) (s : str)
    (b' : option char) (s' : str) :
  plain_opt b = true -> plain_str s = true ->
  ic_skip k b s = Some (b', s') ->
  plain_opt b' = true /\ plain_str s' = true.
Proof.
  revert b s. induction k as [|p k IH]; intros b s Hb Hs H; simpl in *.
  - injection H as <- <-. split; assumption.
  - destruct s as [|c s]; [discriminate|].
    destruct (ic_eq p c); [|discriminate].
    simpl in Hs. apply andb_true_iff in Hs. destruct Hs as [Hc Hs].
    apply (IH (Some c) s); assumption.
Qed.

Lemma whole_word_here_plain (k : str) (b : option char) (s : str) :
  plain_str k = true -> plain_opt b = true -> plain_str s = true ->
  whole_word_here k b s = @whole_word_here plain_unicode k b s.
Proof.
  intros Hk Hb Hs. unfold whole_word_here.
  rewrite (at_boundary_plain b s Hb Hs), <- (ic_skip_plain k b s Hk Hs).
  destruct (ic_skip k b s) as [[b' s']|] eqn:E; [|reflexivity].
  destruct (ic_skip_keeps_plain k b s Hb Hs E) as [Hb' Hs'].
  rewrite (at_boundary_plain b' s' Hb' Hs'). reflexivity.
Qed.

Lemma scan_plain (k : str) (s : str) (skip i : nat) (b : option char) :
  plain_str k = true -> plain_opt b = true -> plain_str s = true ->
  scan (keyword_pattern k) skip i b s =
  @scan plain_unicode (keyword_pattern k) skip i b s.
Proof.
  intros Hk. revert skip i b.
  induction s as [|c s IH]; intros skip i b Hb Hs.
  - destruct skip; [|reflexivity].
    rewrite !scan_keyword_end, (whole_word_here_plain k b [] Hk Hb Hs).
    reflexivity.
  - simpl in Hs. apply andb_true_iff in Hs. destruct Hs as [Hc Hs].
    destruct skip as [|n].
    + rewrite !scan_keyword_try.
      rewrite (whole_word_here_plain k b (c :: s) Hk Hb)
        by (simpl; rewrite Hc, Hs; reflexivity).
      rewrite !(IH _ _ (Some c) Hc Hs). reflexivity.
    + rewrite !scan_keyword_skip. apply (IH _ _ (Some c) Hc Hs).
Qed.

(** The count of a plain keyword in a plain text, lowered or not. *)
Lemma matches_plain (k s : str) :
  plain_str k = true -> plain_str s = true ->
  matches k s = @matches plain_unicode k s.
Proof.
  intros Hk Hs. unfold matches, findall.
  rewrite (scan_plain k s 0 0 None Hk eq_refl Hs). reflexivity.
Qed.

End Transfer.

(** ** Keyword comparisons *)

Lemma find_hit (A : Type) (f : A -> bool) (l : list A) (x : A) :
  In x l -> f x = true ->
  exists y, find f l = Some y /\ In y l /\ f y = true.
Proof.
  intros Hin Hf. destruct (find f l) as [y|] eqn:E.
  - exists y. split; [reflexivity|]. apply (find_some f l E).
  - rewrite (find_none f l E x Hin) in Hf. discriminate.
Qed.

Section KeywordChecks.
Context {U : Unicode}.

(** The exclusion score, as the specification words it: twice the count of
    whole-word matches of the exclusion keywords. *)
Definition exclude_sum (text : str) : Q :=
  Qsum (map (fun keyword => of_nat (matches keyword (lower text)) * 2)
            exclude_keywords).

Lemma exclude_count_sum (text_lower : str) (keywords : list str) (n : nat) :
  of_nat (fold_left (fun n keyword => (n + matches keyword text_lower)%nat)
            keywords n) * 2 ==
  of_nat n * 2 +
  Qsum (map (fun keyword => of_nat (matches keyword text_lower) * 2) keywords).
Proof.
  revert n. induction keywords as [|k ks IH]; intros n; simpl.
  - ring.
  - rewrite IH, of_nat_plus. ring.
Qed.

Lemma check_exclude_sum (text : str) :
  _check_exclude_patterns text == exclude_sum text.
Proof.
  unfold _check_exclude_patterns, exclude_sum. destruct text as [|c text].
  - symmetry. apply Qsum_zero. intros k. reflexivity.
  - rewrite exclude_count_sum. unfold of_nat at 1. simpl. ring.
Qed.

(** The three early-return loops of [is_suitable_programming_issue]. *)
Definition negative_hit (i : issue) : option str :=
  first_hit
    (fun keyword => contains keyword (firstn 100 (lower (issue_title i))))
    negative_keywords.

Definition cross_platform_hit (i : issue) : option str :=
  first_hit
    (fun keyword =>
       contains keyword (lower (lower (issue_title i)))
       || contains keyword (lower (firstn 500 (lower (issue_body i)))))
    cross_platform_keywords.

Definition negative_label_hit (i : issue) : option str :=
  first_hit (fun label => mem label (map lower (issue_labels i)))
    negative_labels.

Lemma suitable_negative (i : issue) (keyword : str) :
  negative_hit i = Some keyword ->
  is_suitable_programming_issue i =
  (false, py "Contains negative keyword: '" ++ keyword ++ py "'").
Proof.
  unfold negative_hit, is_suitable_programming_issue. intros ->. reflexivity.
Qed.

Lemma suitable_cross_platform (i : issue) (keyword : str) :
  negative_hit i = None -> cross_platform_hit i = Some keyword ->
  is_suitable_programming_issue i =
  (false,
   py "Cross-platform issue not suitable for fixed environment: '"
     ++ keyword ++ py "'").
Proof.
  unfold negative_hit, cross_platform_hit, is_suitable_programming_issue.
  intros -> ->. reflexivity.
Qed.

Lemma suitable_positive_keyword (i : issue) (keyword : str) :
  negative_hit i = None -> cross_platform_hit i = None ->
  negative_label_hit i = None ->
  In keyword positive_keywords ->
  contains keyword (lower (issue_title i))
  || contains keyword (firstn 500 (lower (issue_body i))) = true ->
  fst (is_suitable_programming_issue i) = true.
Proof.
  unfold negative_hit, cross_platform_hit, negative_label_hit,
    is_suitable_programming_issue.
  intros -> -> -> Hin Hc.
  assert (E : existsb
                (fun keyword =>
                   contains keyword (lower (issue_title i))
                   || contains keyword (firstn 500 (lower (issue_body i))))
                positive_keywords = true).
  { apply existsb_exists. exists keyword. split; assumption. }
  rewrite E, orb_true_r. simpl.
  match goal with |- fst (if ?c then _ else _) = _ => destruct c end;
    reflexivity.
Qed.

(** C1, as the code has it.  In the classifier, the lexicon scorer and the
    exclusion counter count a keyword only where it stands as a whole word,
    up to case, with a word boundary on each side; a keyword that begins and
    ends with word characters is never counted inside a longer word; the text
    [debugging session] has no match for [bug].  In the suitability filter
    the negative, cross-platform and positive keyword checks are substring
    tests: a keyword contained anywhere in the lowered text fires its
    rule. *)
Theorem keyword_matching (text : str) :
  (forall keyword_dict,
     _calculate_score text keyword_dict == weighted_sum text keyword_dict) /\
  _check_exclude_patterns text == exclude_sum text /\
  (forall keyword j,
     In j (findall (keyword_pattern keyword) (lower text)) ->
     whole_word_at keyword (lower text) j) /\
  (forall keyword j,
     first_word keyword = true -> last_word keyword = true ->
     In j (findall (keyword_pattern keyword) (lower text)) ->
     standalone_at keyword (lower text) j) /\
  matches (py "bug") (lower (py "debugging session")) = 0%nat /\
  (forall i keyword,
     In keyword negative_keywords ->
     contains keyword (firstn 100 (lower (issue_title i))) = true ->
     fst (is_suitable_programming_issue i) = false) /\
  (forall i keyword,
     negative_hit i = None ->
     In keyword cross_platform_keywords ->
     contains keyword (lower (lower (issue_title i)))
     || contains keyword (lower (firstn 500 (lower (issue_body i)))) = true ->
     fst (is_suitable_programming_issue i) = false) /\
  (forall i keyword,
     negative_hit i = None -> cross_platform_hit i = None ->
     negative_label_hit i = None ->
     In keyword positive_keywords ->
     contains keyword (lower (issue_title i))
     || contains keyword (firstn 500 (lower (issue_body i))) = true ->
     fst (is_suitable_programming_issue i) = true).
Proof.
  split; [intros; apply calculate_score_sum|].
  split; [apply check_exclude_sum|].
  split; [intros keyword j; apply findall_sound|].
  split.
  { intros keyword j F L H. apply whole_word_standalone; try assumption.
    apply findall_sound, H. }
  split.
  { rewrite lower_plain_str by reflexivity.
    rewrite matches_plain by reflexivity. reflexivity. }
  split.
  { intros i keyword Hin Hc.
    destruct (find_hit
                (fun keyword =>
                   contains keyword (firstn 100 (lower (issue_title i))))
                negative_keywords keyword Hin Hc) as [y [Hy _]].
    rewrite (suitable_negative i Hy). reflexivity. }
  split.
  { intros i keyword Hn Hin Hc.
    destruct (find_hit
                (fun keyword =>
                   contains keyword (lower (lower (issue_title i)))
                   || contains keyword
                        (lower (firstn 500 (lower (issue_body i)))))
                cross_platform_keywords keyword Hin Hc) as [y [Hy _]].
    rewrite (suitable_cross_platform i Hn Hy). reflexivity. }
  intros i keyword. apply suitable_positive_keyword.
Qed.

End KeywordChecks.

(** C1 as stated fails on the suitability filter: the title
    [Show information panel] is rejected for the negative keyword [format],
    which stands in it only inside the word [information]. *)
Definition suitability_matches_whole_words : Prop :=
  forall (i : issue) (keyword : str),
    In keyword negative_keywords ->
    is_suitable_programming_issue i =
    (false, py "Contains negative keyword: '" ++ keyword ++ py "'") ->
    (0 < matches keyword (lower (issue_title i)))%nat.

Lemma suitability_substring_counterexample :
  is_suitable_programming_issue (Issue (py "Show information panel") [] []) =
  (false, py "Contains negative keyword: 'format'") /\
  matches (py "format") (lower (py "Show information panel")) = 0%nat /\
  ~ suitability_matches_whole_words.
Proof.
  split; [reflexivity|]. split; [reflexivity|].
  intros H.
  specialize (H (Issue (py "Show information panel") [] []) (py "format")).
  assert (L : (0 < 0)%nat).
  { apply H; [|reflexivity]. vm_compute. tauto. }
  inversion L.
Qed.

(** ** The negative-keyword rule *)

Section NegativeRule.
Context {U : Unicode}.

Definition negative_reason (keyword : str) : str :=
  py "Contains negative keyword: '" ++ keyword ++ py "'".

(** C8.  An issue whose lowered title contains a negative keyword within its
    first 100 characters is rejected, whatever its body and labels are; the
    reason names a negative keyword that the title contains there, the first
    one in the order of the list, hence that very keyword when it is the only
    one contained.  The title [Fix typo in README] is rejected for [typo]. *)
Theorem negative_keyword_rejects :
  (forall (i : issue) (keyword : str),
     In keyword negative_keywords ->
     contains keyword (firstn 100 (lower (issue_title i))) = true ->
     exists named,
       negative_hit i = Some named /\
       In named negative_keywords /\
       contains named (firstn 100 (lower (issue_title i))) = true /\
       ((forall k, In k negative_keywords ->
           contains k (firstn 100 (lower (issue_title i))) = true ->
           k = keyword) -> named = keyword) /\
       forall body labels,
         is_suitable_programming_issue (Issue (issue_title i) body labels) =
         (false, negative_reason named)) /\
  (forall body labels,
     is_suitable_programming_issue
       (Issue (py "Fix typo in README") body labels) =
     (false, negative_reason (py "typo"))).
Proof.
  split.
  - intros i keyword Hin Hc.
    destruct (find_hit
                (fun keyword =>
                   contains keyword (firstn 100 (lower (issue_title i))))
                negative_keywords keyword Hin Hc) as [y [Hy [Iy Cy]]].
    exists y. split; [exact Hy|]. split; [exact Iy|]. split; [exact Cy|].
    split; [intros Huniq; apply Huniq; assumption|].
    intros body labels. apply suitable_negative. exact Hy.
  - intros body labels. apply suitable_negative.
    unfold negative_hit. cbn [issue_title].
    rewrite lower_plain_str by reflexivity. reflexivity.
Qed.

End NegativeRule.

(** ** The LLM-backed filter *)

Section LLMFailure.
Context {U : Unicode}.

Definition error_reason (e : str) : str := py "LLM analysis error: " ++ e.

(** C9.  Whatever the client does, the filter returns a verdict.  When the
    call raises, or the response has no choice, or its first choice has no
    text, the exception is caught and the verdict is a rejection whose reason
    is built from the message of the exception; otherwise the verdict is the
    parse of the reply. *)
Theorem llm_failure_is_caught (i : issue) (client : llm_client)
    (reference_problems : list str) :
  let completion :=
    client (build_system_prompt reference_problems)
      (build_user_prompt (issue_title i) (issue_body i) (issue_labels i)) in
  let verdict := is_suitable_programming_issue_llm i client reference_problems in
  (forall e, completion = Raises e -> verdict = (false, error_reason e)) /\
  (completion = Returns [] ->
   verdict = (false, error_reason (py "list index out of range"))) /\
  (forall rest, completion = Returns (None :: rest) ->
   verdict =
   (false, error_reason (py "'NoneType' object has no attribute 'strip'"))) /\
  (forall content rest, completion = Returns (Some content :: rest) ->
   verdict = parse_reply (strip content)) /\
  (forall e, response_text completion = inl e ->
   verdict = (false, error_reason e)).
Proof.
  intros completion verdict.
  unfold verdict, is_suitable_programming_issue_llm. fold completion.
  repeat split.
  - intros e ->. reflexivity.
  - intros ->. reflexivity.
  - intros rest ->. reflexivity.
  - intros content rest ->. reflexivity.
  - intros e ->. reflexivity.
Qed.

End LLMFailure.

(** *** The reply line *)

Lemma fold_letter (c x : char) :
  fold c = x -> (97 <= x <= 122)%N ->
  plain c = true /\ plain_space c = false.
Proof.
  unfold fold, plain, is_ascii, is_cjk, plain_space.
  destruct (N.leb_spec 65 c), (N.leb_spec c 90); simpl; intros <- [L1 L2].
  - split.
    + replace (c <? 128)%N with true by (symmetry; apply N.ltb_lt; lia).
      reflexivity.
    + replace (c <=? 13)%N with false by (symmetry; apply N.leb_gt; lia).
      replace (c <=? 32)%N with false by (symmetry; apply N.leb_gt; lia).
      rewrite !andb_false_r. reflexivity.
  - split.
    + replace (c <? 128)%N with true by (symmetry; apply N.ltb_lt; lia).
      reflexivity.
    + replace (c <=? 13)%N with false by (symmetry; apply N.leb_gt; lia).
      replace (c <=? 32)%N with false by (symmetry; apply N.leb_gt; lia).
      rewrite !andb_false_r. reflexivity.
  - lia.
  - split.
    + replace (c <? 128)%N with true by (symmetry; apply N.ltb_lt; lia).
      reflexivity.
    + replace (c <=? 13)%N with false by (symmetry; apply N.leb_gt; lia).
      replace (c <=? 32)%N with false by (symmetry; apply N.leb_gt; lia).
      rewrite !andb_false_r. reflexivity.
Qed.

Lemma firstn_consumed (A : Type) (m s : list A) :
  firstn (length (m ++ s) - length s) (m ++ s) = m.
Proof.
  rewrite length_app, Nat.add_sub, firstn_app, Nat.sub_diag, firstn_all.
  simpl. apply app_nil_r.
Qed.

Section Matching.
Context {U : Unicode}.

(** A plain literal reads any text equal to it up to case. *)
Lemma ic_skip_read (k m s : str) (b : option char) :
  plain_str k = true -> plain_str m = true -> map fold k = map fold m ->
  ic_skip k b (m ++ s) =
  Some (match last_char m with Some c => Some c | None => b end, s).
Proof.
  revert m b. induction k as [|p k IH]; intros m b Hk Hm E.
  - destruct m; [reflexivity | discriminate].
  - destruct m as [|c m]; [discriminate|].
    simpl in Hk, Hm, E. injection E as Ec Em.
    apply andb_true_iff in Hk, Hm. destruct Hk as [Hp Hk], Hm as [Hc Hm].
    simpl. rewrite (ic_plain p c Hp Hc), Ec, N.eqb_refl.
    rewrite (IH m (Some c) Hk Hm Em).
    change (c :: m) with ([c] ++ m). rewrite last_char_app.
    destruct (last_char m); reflexivity.
Qed.

(** The greedy repetition stops where the atom does not match. *)
Definition stops (a : atom) (s : str) : Prop :=
  match s with
  | c :: _ => atom_ok a c = false
  | [] => True
  end.

Lemma star_stop (A : Type) (a : atom) (K : cursor -> option A)
    (b : option char) (s : str) (g : list str) :
  stops a s -> star a K b s g = K (Cursor b s g).
Proof.
  destruct s as [|c s]; simpl; [reflexivity|]. intros ->. reflexivity.
Qed.

(** When the rest of the pattern succeeds after the longest run, the greedy
    repetition takes the longest run. *)
Lemma star_run (A : Type) (a : atom) (K : cursor -> option A)
    (run tail : str) (b : option char) (g : list str) (x : A) :
  Forall (fun c => atom_ok a c = true) run -> stops a tail ->
  K (Cursor (match last_char run with Some c => Some c | None => b end)
       tail g) = Some x ->
  star a K b (run ++ tail) g = Some x.
Proof.
  intros Hrun Hstop. revert b.
  induction Hrun as [|c run Hc _ IH]; intros b HK.
  - simpl in *. rewrite star_stop by assumption. exact HK.
  - simpl. rewrite Hc. rewrite (IH (Some c)); [reflexivity|].
    change (c :: run) with ([c] ++ run) in HK. rewrite last_char_app in HK.
    destruct (last_char run); exact HK.
Qed.

Lemma search_here (r : regex) (s : str) (m : cursor) :
  match_here r None s = Some m -> search r s = Some m.
Proof.
  intros H. unfold search. destruct s; simpl; rewrite H; reflexivity.
Qed.

Definition is_flag (flag : str) : Prop :=
  map fold flag = py "true" \/ map fold flag = py "false".

Definition one_line (reason tail : str) : Prop :=
  match reason with
  | c :: _ => is_space c = false
  | [] => False
  end /\
  Forall (fun c => c <> NL) reason /\
  match tail with
  | c :: _ => c = NL
  | [] => True
  end.

Definition lower_letters (k : str) : bool :=
  forallb (fun x => (97 <=? x)%N && (x <=? 122)%N) k.

Lemma fold_letters_plain (m k : str) :
  map fold m = k -> lower_letters k = true -> plain_str m = true.
Proof.
  revert k. induction m as [|c m IH]; intros k E L; [reflexivity|].
  destruct k as [|x k]; [discriminate|]. simpl in E, L.
  injection E as Ec Em. apply andb_true_iff in L. destruct L as [Lx Lk].
  apply andb_true_iff in Lx. destruct Lx as [L1 L2].
  apply N.leb_le in L1, L2.
  simpl. rewrite (proj1 (@fold_letter c x Ec (conj L1 L2))).
  apply (IH k Em Lk).
Qed.

Lemma flag_plain (flag : str) : is_flag flag -> plain_str flag = true.
Proof.
  intros [E|E]; apply (@fold_letters_plain flag _ E); reflexivity.
Qed.

Lemma flag_head (flag rest : str) : is_flag flag -> stops Space (flag ++ rest).
Proof.
  intros H.
  assert (L : exists c flag', flag = c :: flag' /\
                (fold c = 116 \/ fold c = 102)%N).
  { destruct H as [E|E]; (destruct flag as [|c flag]; [discriminate|]);
    exists c, flag; (split; [reflexivity|]);
    injection E as Ec _; [left | right]; exact Ec. }
  destruct L as [c [flag' [-> Hc]]]. simpl.
  assert (P : plain c = true /\ plain_space c = false)
    by (destruct Hc as [Hc|Hc]; apply (@fold_letter c _ Hc); lia).
  destruct P as [Hp Hs]. rewrite (space_plain c Hp). exact Hs.
Qed.

Section Steps.
Variable A : Type.
Variable K : cursor -> option A.

Lemma exec_seq (r1 r2 : regex) (p : cursor) :
  exec (Seq r1 r2) K p = exec r1 (exec r2 K) p.
Proof. reflexivity. Qed.

Lemma exec_eps (p : cursor) : exec Eps K p = K p.
Proof. reflexivity. Qed.

Lemma exec_star (a : atom) (b : option char) (s : str) (g : list str) :
  exec (Star a) K (Cursor b s g) = star a K b s g.
Proof. reflexivity. Qed.

Lemma exec_plus (a : atom) (b : option char) (c : char) (s : str)
    (g : list str) :
  atom_ok a c = true ->
  exec (Plus a) K (Cursor b (c :: s) g) = star a K (Some c) s g.
Proof. intros H. simpl. rewrite H. reflexivity. Qed.

Lemma exec_group (r : regex) (p : cursor) :
  exec (Group r) K p =
  exec r
    (fun q =>
       K (Cursor (behind q) (ahead q)
            (groups q
               ++ [firstn (length (ahead p) - length (ahead q)) (ahead p)])))
    p.
Proof. reflexivity. Qed.

Lemma exec_alt (r1 r2 : regex) (p : cursor) :
  exec (Alt r1 r2) K p =
  match exec r1 K p with
  | Some x => Some x
  | None => exec r2 K p
  end.
Proof. reflexivity. Qed.

End Steps.

Lemma space_run (s : str) :
  Forall (fun c => atom_ok Space c = true) [SP].
Proof.
  constructor; [|constructor]. simpl. rewrite space_plain; reflexivity.
Qed.

(** The pattern on a line [SUITABLE: <flag> - <reason>]: it matches at the
    start of the reply and captures the flag and the reason. *)
Lemma suitable_line (flag reason tail : str) :
  is_flag flag -> one_line reason tail ->
  exists m,
    search suitable_pattern
      (py "SUITABLE: " ++ flag ++ py " - " ++ reason ++ tail) = Some m /\
    groups m = [flag; reason].
Proof.
  intros Hflag [Hhead [Hline Htail]].
  pose (final := Cursor (match last_char reason with
                         | Some c => Some c
                         | None => Some SP
                         end) tail [flag; reason]).
  exists final. split; [|reflexivity]. apply search_here.
  pose (accept := fun q : cursor => Some q).
  unfold match_here, suitable_pattern. fold accept. cbn [cat].
  (* from the last group backwards *)
  assert (E7 : exec (Seq (Group (Plus Dot)) Eps) accept
                 (Cursor (Some SP) (reason ++ tail) [flag]) = Some final).
  { rewrite exec_seq, exec_group.
    destruct reason as [|r0 reason]; [contradiction|].
    inversion Hline as [|? ? Hr0 Hrest]; subst.
    assert (D : atom_ok Dot r0 = true).
    { simpl. destruct (N.eqb_spec r0 NL); [contradiction|reflexivity]. }
    cbn [app]. rewrite exec_plus by exact D. apply star_run.
    - apply Forall_forall. intros c Hc. simpl.
      rewrite Forall_forall in Hrest. specialize (Hrest c Hc).
      destruct (N.eqb_spec c NL); [contradiction|reflexivity].
    - destruct tail as [|t tail]; simpl; [exact I|]. rewrite Htail.
      reflexivity.
    - rewrite exec_eps. unfold accept. cbn [ahead behind groups].
      change (r0 :: reason ++ tail) with ((r0 :: reason) ++ tail).
      rewrite firstn_consumed. unfold final.
      change (r0 :: reason) with ([r0] ++ reason). rewrite last_char_app.
      destruct (last_char reason); reflexivity. }
  assert (E5 : forall b,
    exec (Seq (lit (py "-")) (Seq (Star Space) (Seq (Group (Plus Dot)) Eps)))
      accept (Cursor b (py "-" ++ [SP] ++ reason ++ tail) [flag])
    = Some final).
  { intros b. rewrite exec_seq, exec_lit, ic_skip_read by reflexivity.
    rewrite exec_seq, exec_star. apply star_run.
    - apply space_run, tail.
    - destruct reason as [|r0 reason]; [contradiction|]. exact Hhead.
    - exact E7. }
  assert (E4 : forall b,
    exec (Seq (Star Space)
            (Seq (lit (py "-"))
               (Seq (Star Space) (Seq (Group (Plus Dot)) Eps))))
      accept (Cursor b (py " - " ++ reason ++ tail) [flag]) = Some final).
  { intros b. rewrite exec_seq, exec_star.
    change (py " - " ++ reason ++ tail)
      with ([SP] ++ (py "-" ++ [SP] ++ reason ++ tail)).
    apply star_run.
    - apply space_run, tail.
    - simpl. rewrite space_plain; reflexivity.
    - apply E5. }
  (* the head of the line and the flag *)
  rewrite exec_seq, exec_lit.
  change (py "SUITABLE: " ++ flag ++ py " - " ++ reason ++ tail)
    with (py "SUITABLE:" ++ [SP] ++ (flag ++ py " - " ++ reason ++ tail)).
  rewrite ic_skip_read by reflexivity.
  rewrite exec_seq, exec_star. apply star_run.
  - apply space_run, tail.
  - apply flag_head, Hflag.
  - rewrite exec_seq, exec_group, exec_alt.
    pose proof (flag_plain Hflag) as Hp.
    destruct Hflag as [E|E].
    + rewrite exec_lit,
        (@ic_skip_read (py "true") flag _ _ eq_refl Hp (eq_sym E)).
      cbn [ahead behind groups app]. rewrite firstn_consumed.
      rewrite E4. reflexivity.
    + assert (N : ic_skip (py "true") (Some SP)
                    (flag ++ py " - " ++ reason ++ tail) = None).
      { destruct flag as [|c flag]; [discriminate|].
        simpl in E, Hp. injection E as Ec _.
        apply andb_true_iff in Hp. destruct Hp as [Hc _].
        change (py "true") with (116%N :: py "rue"). cbn [ic_skip app].
        rewrite (ic_plain 116%N c eq_refl Hc), Ec. reflexivity. }
      rewrite exec_lit. cbn [last_char rev app]. rewrite N.
      cbv beta iota.
      rewrite exec_lit,
        (@ic_skip_read (py "false") flag _ _ eq_refl Hp (eq_sym E)).
      cbn [ahead behind groups app]. rewrite firstn_consumed.
      apply E4.
Qed.

End Matching.

Section ReplyParse.
Context {U : Unicode}.

(** C10.  The verdict on a reply is its parse.  When the pattern
    [SUITABLE:\s*(true|false)\s*-\s*(.+)] is found, the verdict is the flag
    it captured, compared with [true] up to case, and the reason it captured,
    stripped; on a line [SUITABLE: <flag> - <reason>] these are the flag and
    the reason of the line.  When the pattern is not found, the verdict is
    [true] exactly when the lowered reply contains one of the affirmative
    words, and a rejection otherwise, the reason quoting the reply. *)
Theorem reply_parse :
  (forall i client reference_problems content rest,
     client (build_system_prompt reference_problems)
       (build_user_prompt (issue_title i) (issue_body i) (issue_labels i)) =
     Returns (Some content :: rest) ->
     is_suitable_programming_issue_llm i client reference_problems =
     parse_reply (strip content)) /\
  (forall reply m,
     search suitable_pattern reply = Some m ->
     parse_reply reply =
     (str_eqb (lower (nth 0 (groups m) [])) (py "true"),
      py "LLM analysis: " ++ strip (nth 1 (groups m) []))) /\
  (forall flag reason tail,
     is_flag flag -> one_line reason tail ->
     parse_reply (py "SUITABLE: " ++ flag ++ py " - " ++ reason ++ tail) =
     (str_eqb (map fold flag) (py "true"),
      py "LLM analysis: " ++ strip reason)) /\
  (forall reply,
     search suitable_pattern reply = None ->
     parse_reply reply =
     (existsb (fun word => contains word (lower reply)) affirmative_words,
      py "LLM assessment: " ++ firstn 100 reply ++ py "...") /\
     (fst (parse_reply reply) = true <->
      exists word,
        In word affirmative_words /\ contains word (lower reply) = true)).
Proof.
  split; [|split; [|split]].
  - intros i client reference_problems content rest E.
    unfold is_suitable_programming_issue_llm. rewrite E. reflexivity.
  - intros reply m E. unfold parse_reply. rewrite E. reflexivity.
  - intros flag reason tail Hf Hl.
    destruct (suitable_line Hf Hl) as [m [E G]].
    unfold parse_reply. rewrite E, G. cbn [nth].
    rewrite (lower_plain_str flag (flag_plain Hf)). reflexivity.
  - intros reply E.
    assert (P : parse_reply reply =
                (existsb (fun word => contains word (lower reply))
                   affirmative_words,
                 py "LLM assessment: " ++ firstn 100 reply ++ py "...")).
    { unfold parse_reply. rewrite E.
      destruct (existsb _ affirmative_words); reflexivity. }
    split; [exact P|]. rewrite P. cbn [fst]. apply existsb_exists.
Qed.

End ReplyParse.

(** Two replies, run: a line of the expected shape, and a reply without it
    that holds an affirmative word only inside another word. *)
Example reply_of_the_shape :
  parse_reply (py "SUITABLE: True - Clear implementation task") =
  (true, py "LLM analysis: Clear implementation task").
Proof. reflexivity. Qed.

Example reply_without_the_shape :
  search suitable_pattern (py "This looks unsuitable to me") = None /\
  parse_reply (py "This looks unsuitable to me") =
  (true, py "LLM assessment: This looks unsuitable to me...").
Proof. split; reflexivity. Qed.

(** ** The template matcher *)

(** The patterns in the order the specification declares them: category by
    category, and pattern by pattern within a category. *)
Definition declared_order (table : list (category * list regex))
    : list (category * regex) :=
  flat_map (fun entry => map (pair (fst entry)) (snd entry)) table.

Section Templates.
Context {U : Unicode}.

(** The first declared pattern that is found in the lowered text. *)
Definition first_template (table : list (category * list regex))
    (text_lower : str) : option (category * regex) :=
  find (fun cp => found (snd cp) text_lower) (declared_order table).

Lemma any_pattern_find (c : category) (patterns : list regex)
    (text_lower : str) :
  any_pattern patterns text_lower =
  match find (fun cp => found (snd cp) text_lower) (map (pair c) patterns) with
  | Some _ => true
  | None => false
  end.
Proof.
  induction patterns as [|p ps IH]; simpl; [reflexivity|].
  destruct (found p text_lower); [reflexivity | exact IH].
Qed.

Lemma find_pair_category (c : category) (patterns : list regex)
    (text_lower : str) (cp : category * regex) :
  find (fun cp => found (snd cp) text_lower) (map (pair c) patterns) = Some cp ->
  fst cp = c.
Proof.
  intros H. apply find_some in H. destruct H as [H _].
  apply in_map_iff in H. destruct H as [p [<- _]]. reflexivity.
Qed.

Lemma find_app (A : Type) (f : A -> bool) (l1 l2 : list A) :
  find f (l1 ++ l2) =
  match find f l1 with
  | Some x => Some x
  | None => find f l2
  end.
Proof.
  induction l1 as [|x l1 IH]; simpl; [reflexivity|].
  destruct (f x); [reflexivity | exact IH].
Qed.

Lemma check_categories_first (table : list (category * list regex))
    (text_lower : str) :
  check_categories table text_lower =
  match first_template table text_lower with
  | Some cp => (10, fst cp)
  | None => (0, other)
  end.
Proof.
  unfold first_template.
  induction table as [|[c patterns] table IH]; simpl; [reflexivity|].
  rewrite find_app, (any_pattern_find c).
  destruct (find _ (map (pair c) patterns)) as [cp|] eqn:E.
  - rewrite (find_pair_category c patterns text_lower E). reflexivity.
  - exact IH.
Qed.

Lemma no_template_in_empty : first_template template_patterns [] = None.
Proof.
  reflexivity.
Qed.

Lemma check_templates_first (text : str) :
  _check_templates text =
  match first_template template_patterns (lower text) with
  | Some cp => (10, fst cp)
  | None => (0, other)
  end.
Proof.
  destruct text as [|c text].
  - change (lower []) with (@nil char). rewrite no_template_in_empty.
    reflexivity.
  - unfold _check_templates. apply check_categories_first.
Qed.

Lemma classify_template (title body : str) (labels : list str) :
  0 < fst (_check_templates (combined_text title body labels)) ->
  classify_issue title body labels =
  snd (_check_templates (combined_text title body labels)).
Proof.
  intros H. unfold classify_issue.
  destruct (_check_templates (combined_text title body labels)) as [ts tc].
  simpl in *. apply Qltb_lt in H. rewrite H. reflexivity.
Qed.

(** *** Lowering keeps a plain passage in place *)

Lemma lower_from_plain_app (behind B Y : str) :
  plain_str B = true ->
  lower_from behind (B ++ Y) = map fold B ++ lower_from (rev B ++ behind) Y.
Proof.
  revert behind. induction B as [|c B IH]; intros behind H; simpl in *.
  - reflexivity.
  - apply andb_true_iff in H. destruct H as [Hc HB].
    rewrite (sigma_not_plain c Hc), (lower_plain c Hc), (IH _ HB).
    rewrite <- app_assoc. reflexivity.
Qed.

Lemma lower_from_split (behind X Z : str) :
  exists X', lower_from behind (X ++ Z) = X' ++ lower_from (rev X ++ behind) Z.
Proof.
  revert behind. induction X as [|c X IH]; intros behind.
  - exists []. reflexivity.
  - destruct (IH (c :: behind)) as [X' E]. simpl. rewrite E.
    exists ((if N.eqb c 931
             then [if final_sigma behind (X ++ Z) then 962%N else 963%N]
             else to_lower_full c) ++ X').
    rewrite <- !app_assoc. reflexivity.
Qed.

Lemma lower_passage (X B Y : str) :
  plain_str B = true ->
  exists X' Y', lower (X ++ B ++ Y) = X' ++ map fold B ++ Y'.
Proof.
  intros H. unfold lower.
  destruct (lower_from_split [] X (B ++ Y)) as [X' E].
  rewrite E, (lower_from_plain_app _ B Y H). eauto.
Qed.

(** *** Searching past a prefix *)

Lemma search_from_later (r : regex) (X s : str) (b : option char) (m : cursor) :
  match_here r (match last_char X with Some c => Some c | None => b end) s
  = Some m ->
  exists m', search_from r b (X ++ s) = Some m'.
Proof.
  revert b. induction X as [|c X IH]; intros b H.
  - simpl in *. exists m. destruct s; simpl; rewrite H; reflexivity.
  - change (c :: X) with ([c] ++ X) in H. rewrite last_char_app in H.
    simpl. destruct (match_here r b (c :: X ++ s)) as [q|]; [eauto|].
    apply (IH (Some c)).
    destruct (last_char X); exact H.
Qed.

Lemma found_later (r : regex) (X s : str) :
  (forall b, exists m, match_here r b s = Some m) -> found r (X ++ s) = true.
Proof.
  intros H. unfold found, search.
  destruct (H (match last_char X with Some c => Some c | None => None end))
    as [m Hm].
  destruct (search_from_later r X s None Hm) as [m' E].
  rewrite E. reflexivity.
Qed.

Lemma bug_report_template_here (b : option char) (Y : str) :
  exists m,
    match_here
      (cat [lit (py "bug"); ws1; lit (py "report"); ws1; lit (py "template")])
      b (py "bug report template" ++ Y) = Some m.
Proof.
  unfold match_here, ws1. cbn [cat].
  change (py "bug report template" ++ Y)
    with (py "bug" ++ SP :: py "report" ++ SP :: py "template" ++ Y).
  rewrite exec_seq, exec_lit, ic_skip_read by reflexivity.
  rewrite exec_seq, exec_plus by (simpl; rewrite space_plain; reflexivity).
  rewrite star_stop by (simpl; rewrite space_plain; reflexivity).
  rewrite exec_seq, exec_lit, ic_skip_read by reflexivity.
  rewrite exec_seq, exec_plus by (simpl; rewrite space_plain; reflexivity).
  rewrite star_stop by (simpl; rewrite space_plain; reflexivity).
  rewrite exec_seq, exec_lit, ic_skip_read by reflexivity.
  rewrite exec_eps. eauto.
Qed.

Lemma template_in_text (X Y : str) :
  _check_templates (X ++ py "Bug Report Template" ++ Y) = (10, bug).
Proof.
  destruct (@lower_passage X (py "Bug Report Template") Y eq_refl)
    as [X' [Y' E]].
  assert (F : found
                (cat [lit (py "bug"); ws1; lit (py "report"); ws1;
                      lit (py "template")])
                (lower (X ++ py "Bug Report Template" ++ Y)) = true).
  { rewrite E. apply found_later. intros b.
    apply bug_report_template_here. }
  unfold _check_templates.
  destruct (X ++ py "Bug Report Template" ++ Y) as [|c s] eqn:Es.
  - destruct X; discriminate.
  - unfold template_patterns.
    cbn [check_categories any_pattern]. rewrite F. reflexivity.
Qed.

(** C3.  The template matcher returns [(10, c)] with [c] the category of the
    first declared pattern found in the lowered text, and [(0, other)] when
    none is found; a non-zero template score makes [classify_issue] return
    the template's category at once; a body that contains
    [Bug Report Template] is classified [bug], whatever else the title, the
    body and the labels hold. *)
Theorem template_first_match :
  (forall text,
     _check_templates text =
     match first_template template_patterns (lower text) with
     | Some cp => (10, fst cp)
     | None => (0, other)
     end) /\
  (forall title body labels,
     ~ fst (_check_templates (combined_text title body labels)) == 0 ->
     classify_issue title body labels =
     snd (_check_templates (combined_text title body labels))) /\
  (forall title before after labels,
     classify_issue title (before ++ py "Bug Report Template" ++ after) labels
     = bug).
Proof.
  split; [exact check_templates_first|]. split.
  - intros title body labels H. apply classify_template.
    rewrite check_templates_first in *.
    destruct (first_template _ _); simpl in *; [reflexivity|].
    exfalso. apply H. reflexivity.
  - intros title before after labels.
    assert (E : exists X Y,
      combined_text title (before ++ py "Bug Report Template" ++ after) labels
      = X ++ py "Bug Report Template" ++ Y).
    { unfold combined_text. destruct labels as [|l ls].
      - exists (title ++ [SP] ++ before), after.
        rewrite <- !app_assoc. reflexivity.
      - exists (title ++ [SP] ++ before),
               (after ++ [SP] ++ join [SP] (l :: ls)).
        rewrite <- !app_assoc. reflexivity. }
    destruct E as [X [Y E]].
    rewrite classify_template; rewrite E, template_in_text; reflexivity.
Qed.

End Templates.

(** * Further properties of the classifier *)

Section ClassifierFacts.
Context {U : Unicode}.

(** The score of a text is the weighted sum of its keyword counts, tier by
    tier; it is never negative, and the empty text scores 0 against every
    table. *)
Theorem score_weighted_sum (text : str) (keyword_dict : lexicon) :
  _calculate_score text keyword_dict == weighted_sum text keyword_dict /\
  0 <= _calculate_score text keyword_dict /\
  _calculate_score [] keyword_dict == 0.
Proof.
  split; [apply calculate_score_sum|]. split.
  - apply calculate_score_nonneg.
  - reflexivity.
Qed.

(** [combined_text] always holds the blank between title and body, so
    [classify_issue] never meets the empty-text shortcuts of the scorers. *)
Lemma combined_text_not_empty (title body : str) (labels : list str) :
  combined_text title body labels <> [].
Proof.
  unfold combined_text. destruct labels; intros H;
    apply app_eq_nil in H; destruct H as [_ H]; discriminate.
Qed.

(** *** Label bonuses *)

Definition bug_label (label : str) : bool :=
  contains (py "bug") (lower label) || contains (py "fix") (lower label).

Definition enhancement_label (label : str) : bool :=
  negb (bug_label label) &&
  (contains (py "feature") (lower label)
   || contains (py "enhancement") (lower label)
   || contains (py "request") (lower label)).

Lemma label_bonus_cases (scores : Q * Q) (label : str) :
  label_bonus scores label =
  if bug_label label then (fst scores + 2, snd scores)
  else if enhancement_label label then (fst scores, snd scores + 2)
  else scores.
Proof.
  unfold label_bonus, enhancement_label, bug_label.
  destruct (contains (py "bug") (lower label)
            || contains (py "fix") (lower label)); reflexivity.
Qed.

Lemma of_nat_succ (n : nat) : of_nat (S n) == of_nat n + 1.
Proof.
  unfold of_nat. rewrite Nat2Z.inj_succ. unfold Z.succ.
  rewrite inject_Z_plus. reflexivity.
Qed.

Lemma bug_not_enhancement (label : str) :
  bug_label label = true -> enhancement_label label = false.
Proof.
  intros H. unfold enhancement_label. rewrite H. reflexivity.
Qed.

Lemma with_labels_sum (labels : list str) (b e : Q) :
  fst (with_labels b e labels) ==
    b + 2 * of_nat (length (filter bug_label labels)) /\
  snd (with_labels b e labels) ==
    e + 2 * of_nat (length (filter enhancement_label labels)).
Proof.
  unfold with_labels. revert b e.
  induction labels as [|l ls IH]; intros b e.
  - simpl. unfold of_nat. simpl. split; ring.
  - cbn [fold_left filter]. rewrite label_bonus_cases. cbn [fst snd].
    destruct (bug_label l) eqn:Hb.
    + rewrite (bug_not_enhancement l Hb).
      destruct (IH (b + 2) e) as [I1 I2]. rewrite I1, I2.
      cbn [length]. rewrite of_nat_succ. split; ring.
    + destruct (enhancement_label l) eqn:He.
      * destruct (IH b (e + 2)) as [I1 I2]. rewrite I1, I2.
        cbn [length]. rewrite of_nat_succ. split; ring.
      * apply IH.
Qed.

(** Each label gives one bonus of 2 at most: to the bug score when it
    contains [bug] or [fix], otherwise to the enhancement score when it
    contains [feature], [enhancement] or [request].  The boosted scores are
    the raw scores plus twice the number of such labels, and the two numbers
    together never exceed the number of labels. *)
Theorem label_bonus_once (b e : Q) (labels : list str) :
  let nb := length (filter bug_label labels) in
  let ne := length (filter enhancement_label labels) in
  fst (with_labels b e labels) == b + 2 * of_nat nb /\
  snd (with_labels b e labels) == e + 2 * of_nat ne /\
  (nb + ne <= length labels)%nat.
Proof.
  intros nb ne. destruct (with_labels_sum labels b e) as [H1 H2].
  split; [exact H1|]. split; [exact H2|].
  unfold nb, ne. clear. induction labels as [|l ls IH]; simpl; [lia|].
  unfold enhancement_label at 1.
  destruct (bug_label l); simpl.
  - lia.
  - destruct (contains (py "feature") (lower l)
              || contains (py "enhancement") (lower l)
              || contains (py "request") (lower l)); simpl; lia.
Qed.

(** *** The decision rule *)

(** The rule treats the two scores alike: swapping them swaps the verdicts
    [bug] and [enhancement] and keeps [other]. *)
Theorem decide_symmetric (b e x : Q) :
  (decide b e x = bug <-> decide e b x = enhancement) /\
  (decide b e x = enhancement <-> decide e b x = bug) /\
  (decide b e x = other <-> decide e b x = other).
Proof.
  destruct (Qlt_le_dec 5 x) as [L|L].
  - rewrite !(decide_override _ _ L). repeat split; discriminate.
  - pose proof (decide_bug b e L) as B1.
    pose proof (decide_enhancement b e L) as E1.
    pose proof (decide_bug e b L) as B2.
    pose proof (decide_enhancement e b L) as E2.
    assert (S1 : decide b e x = bug <-> decide e b x = enhancement)
      by (rewrite B1, E2; reflexivity).
    assert (S2 : decide b e x = enhancement <-> decide e b x = bug)
      by (rewrite E1, B2; reflexivity).
    split; [exact S1|]. split; [exact S2|].
    split; intros O.
    + destruct (decide_cases e b x) as [D2|[D2|D2]]; [| |exact D2].
      * apply S2 in D2. congruence.
      * apply S1 in D2. congruence.
    + destruct (decide_cases b e x) as [D1|[D1|D1]]; [| |exact D1].
      * apply S1 in D1. congruence.
      * apply S2 in D1. congruence.
Qed.

(** A verdict [bug] survives more bug signal and less enhancement signal. *)
Theorem decide_bug_monotone (b e x b' e' : Q) :
  decide b e x = bug -> b <= b' -> e' <= e -> decide b' e' x = bug.
Proof.
  intros D Hb He. destruct (Qlt_le_dec 5 x) as [L|L].
  - rewrite (decide_override _ _ L) in D. discriminate.
  - apply (decide_bug b e L) in D. apply (decide_bug b' e' L). lra.
Qed.

End ClassifierFacts.

Lemma decide_bug_monotone_witness :
  decide 3 0 0 = bug /\ decide 5 0 0 = bug.
Proof.
  split; [reflexivity|].
  apply (@decide_bug_monotone 3 0 0 5 0);
    [reflexivity | vm_compute; discriminate | vm_compute; discriminate].
Defined.

(** *** The confidence *)

Section ConfidenceFacts.
Context {U : Unicode}.

Lemma ratio_below_one (a d : Q) : 0 <= a -> a < d -> a / d < 1.
Proof.
  intros Ha Hd. apply Qlt_shift_div_r; lra.
Qed.

(** The confidence stays strictly below 1, so the clamp [min(..., 1.0)] of
    the source never changes it: the confidence is the plain ratio of the
    formula. *)
Theorem confidence_never_clamped (title body : str) (labels : list str) :
  let text := combined_text title body labels in
  let b := _calculate_score text bug_keywords in
  let e := _calculate_score text enhancement_keywords in
  let x := _check_exclude_patterns text in
  let confidence := snd (get_classification_confidence title body labels) in
  confidence < 1 /\
  confidence ==
    match classify_issue title body labels with
    | bug => b / (b + e + 1)
    | enhancement => e / (b + e + 1)
    | other => x / (x + b + e + 1)
    end.
Proof.
  intros text b e x confidence.
  pose proof (calculate_score_nonneg text bug_keywords) as Hb.
  pose proof (calculate_score_nonneg text enhancement_keywords) as He.
  pose proof (exclude_count_nonneg text) as Hx.
  fold b in Hb. fold e in He. fold x in Hx.
  unfold confidence, get_classification_confidence. cbn [snd].
  fold text. fold b e x.
  destruct (classify_issue title body labels).
  - assert (R : b / (b + e + 1) < 1) by (apply ratio_below_one; lra).
    rewrite Q.min_l by lra. split; [exact R | reflexivity].
  - assert (R : e / (b + e + 1) < 1) by (apply ratio_below_one; lra).
    rewrite Q.min_l by lra. split; [exact R | reflexivity].
  - split; [apply ratio_below_one; lra | reflexivity].
Qed.

(** An issue classified [other] has confidence 0 exactly when no exclusion
    keyword was counted in it. *)
Theorem other_confidence_zero (title body : str) (labels : list str) :
  classify_issue title body labels = other ->
  (snd (get_classification_confidence title body labels) == 0 <->
   _check_exclude_patterns (combined_text title body labels) == 0).
Proof.
  intros C. unfold get_classification_confidence. cbn [snd]. rewrite C.
  set (text := combined_text title body labels).
  pose proof (calculate_score_nonneg text bug_keywords) as Hb.
  pose proof (calculate_score_nonneg text enhancement_keywords) as He.
  pose proof (exclude_count_nonneg text) as Hx.
  set (b := _calculate_score text bug_keywords) in *.
  set (e := _calculate_score text enhancement_keywords) in *.
  set (x := _check_exclude_patterns text) in *.
  assert (D : ~ x + b + e + 1 == 0) by (intros Z; lra).
  split; intros H.
  - assert (X : x == (x + b + e + 1) * (x / (x + b + e + 1)))
      by (symmetry; apply Qmult_div_r; exact D).
    rewrite H in X. eapply Qeq_trans; [exact X | ring].
  - rewrite H. unfold Qdiv. ring.
Qed.

(** The number of exclusion keyword matches the counter adds up. *)
Definition exclude_matches (text : str) : nat :=
  fold_left (fun n keyword => (n + matches keyword (lower text))%nat)
    exclude_keywords 0%nat.

Lemma check_exclude_count (text : str) :
  _check_exclude_patterns text == of_nat (exclude_matches text) * 2.
Proof.
  destruct text as [|c text]; reflexivity.
Qed.

(** Without a template in the text, three counted exclusion keywords are
    enough to classify an issue [other], whatever its bug and enhancement
    scores and its labels; two are not enough to reach the override. *)
Theorem three_exclusions_override (title body : str) (labels : list str) :
  fst (_check_templates (combined_text title body labels)) == 0 ->
  let n := exclude_matches (combined_text title body labels) in
  ((3 <= n)%nat -> classify_issue title body labels = other) /\
  ((n <= 2)%nat ->
   _check_exclude_patterns (combined_text title body labels) <= 5).
Proof.
  intros T n.
  pose proof (check_exclude_count (combined_text title body labels)) as E.
  fold n in E. split; intros H.
  - rewrite (classify_without_template title body labels T).
    apply decide_override. rewrite E.
    assert (L : 3 <= of_nat n).
    { unfold of_nat. change 3 with (inject_Z 3). rewrite <- Zle_Qle. lia. }
    lra.
  - rewrite E.
    assert (L : of_nat n <= 2).
    { unfold of_nat. change 2 with (inject_Z 2). rewrite <- Zle_Qle. lia. }
    lra.
Qed.

End ConfidenceFacts.

Lemma other_confidence_zero_witness :
  classify_issue (py "hello") (py "world") [] = other /\
  snd (get_classification_confidence (py "hello") (py "world") []) == 0.
Proof.
  split; [reflexivity|].
  apply (@other_confidence_zero plain_unicode (py "hello") (py "world") []);
    reflexivity.
Defined.

Lemma three_exclusions_override_witness :
  fst (_check_templates
         (combined_text (py "crash question") (py "help, discussion") []))
  == 0 /\
  classify_issue (py "crash question") (py "help, discussion") [] = other.
Proof.
  split; [reflexivity|].
  apply (@three_exclusions_override plain_unicode (py "crash question")
           (py "help, discussion") []); [reflexivity|].
  vm_compute. lia.
Defined.

(** * Further properties of the keyword filter *)

Lemma str_eqb_eq (a b : str) : str_eqb a b = true <-> a = b.
Proof.
  revert b. induction a as [|x a IH]; intros [|y b]; simpl;
    try (split; (discriminate || reflexivity)).
  rewrite andb_true_iff, N.eqb_eq, IH. split.
  - intros [-> ->]. reflexivity.
  - intros E. injection E as -> ->. split; reflexivity.
Qed.

Lemma mem_In (x : str) (xs : list str) : mem x xs = true <-> In x xs.
Proof.
  unfold mem. rewrite existsb_exists. split.
  - intros [y [Hy E]]. apply str_eqb_eq in E. subst. exact Hy.
  - intros H. exists x. split; [exact H | apply str_eqb_eq; reflexivity].
Qed.

Lemma mem_same (x : str) (xs ys : list str) :
  (forall l, In l xs <-> In l ys) -> mem x xs = mem x ys.
Proof.
  intros H. destruct (mem x xs) eqn:E1, (mem x ys) eqn:E2; try reflexivity.
  - apply mem_In, H, mem_In in E1. congruence.
  - apply mem_In, H, mem_In in E2. congruence.
Qed.

Lemma find_same (A : Type) (f g : A -> bool) (l : list A) :
  (forall x, f x = g x) -> find f l = find g l.
Proof.
  intros H. induction l as [|x l IH]; simpl; [reflexivity|].
  rewrite H, IH. reflexivity.
Qed.

Lemma existsb_same (A : Type) (f g : A -> bool) (l : list A) :
  (forall x, f x = g x) -> existsb f l = existsb g l.
Proof.
  intros H. induction l as [|x l IH]; simpl; [reflexivity|].
  rewrite H, IH. reflexivity.
Qed.

Section FilterFacts.
Context {U : Unicode}.

(** The signals the last four rules look at, from the lowered title, the
    first 500 characters of the lowered body and the lowered labels. *)
Definition accept_signals (title body500 : str) (labels : list str) : bool :=
  existsb (fun label => mem label labels) positive_labels
  || existsb (fun keyword => contains keyword title
                             || contains keyword body500)
       positive_keywords
  || existsb (fun pattern => found pattern title) specific_patterns.

Definition bug_fix_signals (title body500 : str) : bool :=
  existsb (fun keyword => contains keyword (lower title)
                          || contains keyword (lower body500))
    moderate_bug_keywords
  || existsb (fun pattern => found pattern (lower title)) bug_patterns.

Definition long_clean_title (title : str) : bool :=
  (20 <? length title)%nat
  && negb (existsb (fun neg => contains neg title) negative_keywords).

Definition has_complexity (body : str) : bool :=
  existsb (fun indicator => contains indicator (lower body))
    complexity_indicators.

Definition last_rules (title body : str) (labels : list str) : bool * str :=
  if accept_signals title (firstn 500 body) labels then
    if has_complexity body
    then (true, py "Complex implementation challenge with good learning value")
    else (true,
          py "Clear implementation task suitable for programming exercise")
  else if bug_fix_signals title (firstn 500 body) then
    (true, py "Moderate bug fix with good learning value")
  else if long_clean_title title
  then (true, py "Substantial request based on title length and content")
  else (false, py "Lacks clear implementation requirements or learning value").

(** The filter is its three early-return loops, then the last rules. *)
Lemma suitable_rules (i : issue) :
  is_suitable_programming_issue i =
  match negative_hit i with
  | Some keyword =>
    (false, py "Contains negative keyword: '" ++ keyword ++ py "'")
  | None =>
  match cross_platform_hit i with
  | Some keyword =>
    (false,
     py "Cross-platform issue not suitable for fixed environment: '"
       ++ keyword ++ py "'")
  | None =>
  match negative_label_hit i with
  | Some label => (false, py "Has negative label: '" ++ label ++ py "'")
  | None =>
    last_rules (lower (issue_title i)) (lower (issue_body i))
      (map lower (issue_labels i))
  end end end.
Proof.
  reflexivity.
Qed.

Lemma last_rules_reasons (title body : str) (labels : list str) :
  let verdict := last_rules title body labels in
  (fst verdict = true ->
   snd verdict =
     py "Complex implementation challenge with good learning value" \/
   snd verdict =
     py "Clear implementation task suitable for programming exercise" \/
   snd verdict = py "Moderate bug fix with good learning value" \/
   snd verdict = py "Substantial request based on title length and content")
  /\
  (fst verdict = false ->
   snd verdict =
     py "Lacks clear implementation requirements or learning value").
Proof.
  unfold last_rules.
  destruct (accept_signals title (firstn 500 body) labels).
  - destruct (has_complexity body); cbn [fst snd]; split;
      try discriminate; intros _.
    + left. reflexivity.
    + right. left. reflexivity.
  - destruct (bug_fix_signals title (firstn 500 body)).
    + cbn [fst snd]. split; [intros _ | discriminate].
      right. right. left. reflexivity.
    + destruct (long_clean_title title); cbn [fst snd].
      * split; [intros _ | discriminate]. right. right. right. reflexivity.
      * split; [discriminate | intros _]. reflexivity.
Qed.

(** An accepted issue is clean: no negative keyword stands in the first 100
    characters of its lowered title, no cross-platform keyword in its title
    or in the first 500 characters of its body, and none of its labels is a
    negative label. *)
Theorem accepted_issue_is_clean (i : issue) :
  fst (is_suitable_programming_issue i) = true ->
  (forall k, In k negative_keywords ->
     contains k (firstn 100 (lower (issue_title i))) = false) /\
  (forall k, In k cross_platform_keywords ->
     contains k (lower (lower (issue_title i))) = false /\
     contains k (lower (firstn 500 (lower (issue_body i)))) = false) /\
  (forall l, In l negative_labels ->
     ~ In l (map lower (issue_labels i))).
Proof.
  rewrite suitable_rules.
  unfold negative_hit, cross_platform_hit, negative_label_hit, first_hit.
  destruct (find _ negative_keywords) eqn:E1; [discriminate|].
  destruct (find _ cross_platform_keywords) eqn:E2; [discriminate|].
  destruct (find _ negative_labels) eqn:E3; [discriminate|].
  intros _. split; [|split].
  - intros k Hk. exact (find_none _ _ E1 k Hk).
  - intros k Hk. pose proof (find_none _ _ E2 k Hk) as H.
    apply orb_false_iff in H. exact H.
  - intros l Hl Hin. pose proof (find_none _ _ E3 l Hl) as H.
    apply mem_In in Hin. simpl in H. congruence.
Qed.

Definition cross_platform_reason (keyword : str) : str :=
  py "Cross-platform issue not suitable for fixed environment: '"
    ++ keyword ++ py "'".

Definition negative_label_reason (label : str) : str :=
  py "Has negative label: '" ++ label ++ py "'".

(** The reasons the filter can give: an acceptance carries one of four
    fixed messages; a rejection names a negative keyword, a cross-platform
    keyword or a negative label of the lists, or says that the issue lacks
    clear requirements. *)
Theorem suitability_reasons (i : issue) :
  let verdict := is_suitable_programming_issue i in
  (fst verdict = true ->
   snd verdict =
     py "Complex implementation challenge with good learning value" \/
   snd verdict =
     py "Clear implementation task suitable for programming exercise" \/
   snd verdict = py "Moderate bug fix with good learning value" \/
   snd verdict = py "Substantial request based on title length and content")
  /\
  (fst verdict = false ->
   (exists k, In k negative_keywords /\ snd verdict = negative_reason k) \/
   (exists k, In k cross_platform_keywords /\
              snd verdict = cross_platform_reason k) \/
   (exists l, In l negative_labels /\ snd verdict = negative_label_reason l) \/
   snd verdict =
     py "Lacks clear implementation requirements or learning value").
Proof.
  intros verdict. unfold verdict. rewrite suitable_rules.
  unfold negative_hit, cross_platform_hit, negative_label_hit, first_hit.
  unfold negative_reason, cross_platform_reason, negative_label_reason.
  destruct (find _ negative_keywords) as [k|] eqn:E1.
  { cbn [fst snd]. split; [discriminate|]. intros _. left. exists k.
    split.
    - exact (proj1 (find_some _ _ E1)).
    - reflexivity. }
  destruct (find _ cross_platform_keywords) as [k|] eqn:E2.
  { cbn [fst snd]. split; [discriminate|]. intros _. right. left. exists k.
    split.
    - exact (proj1 (find_some _ _ E2)).
    - reflexivity. }
  destruct (find _ negative_labels) as [l|] eqn:E3.
  { cbn [fst snd]. split; [discriminate|]. intros _. right. right. left.
    exists l. split.
    - exact (proj1 (find_some _ _ E3)).
    - reflexivity. }
  destruct (last_rules_reasons (lower (issue_title i)) (lower (issue_body i))
              (map lower (issue_labels i))) as [H1 H2].
  split; [exact H1|]. intros H. right. right. right. exact (H2 H).
Qed.

(** The verdict depends on the labels only as a set of lowered labels:
    their order and their repetitions do not matter. *)
Theorem labels_as_set (title body : str) (labels labels' : list str) :
  (forall l, In l (map lower labels) <-> In l (map lower labels')) ->
  is_suitable_programming_issue (Issue title body labels) =
  is_suitable_programming_issue (Issue title body labels').
Proof.
  intros H. rewrite !suitable_rules.
  unfold negative_hit, cross_platform_hit, negative_label_hit, first_hit.
  cbn [issue_title issue_body issue_labels].
  rewrite (find_same _ (fun label => mem label (map lower labels'))
             negative_labels (fun l => @mem_same l _ _ H)).
  unfold last_rules, accept_signals.
  rewrite (existsb_same _ (fun label => mem label (map lower labels'))
             positive_labels (fun l => @mem_same l _ _ H)).
  reflexivity.
Qed.


End FilterFacts.


Definition lru_issue : issue :=
  Issue (py "Implement LRU cache eviction for file watcher")
        (py "Needs better performance of the cache") [].

Lemma accepted_issue_is_clean_witness :
  fst (is_suitable_programming_issue lru_issue) = true /\
  contains (py "typo") (firstn 100 (lower (issue_title lru_issue))) = false.
Proof.
  split; [vm_compute; reflexivity|].
  destruct (@accepted_issue_is_clean plain_unicode lru_issue)
    as [H _]; [vm_compute; reflexivity|].
  apply H. vm_compute. left. reflexivity.
Defined.

Lemma labels_as_set_witness :
  is_suitable_programming_issue
    (Issue (py "Speed up search") [] [py "Feature"; py "UI"]) =
  is_suitable_programming_issue
    (Issue (py "Speed up search") [] [py "ui"; py "feature"; py "UI"]).
Proof.
  apply (@labels_as_set plain_unicode).
  intros l. vm_compute. intuition.
Defined.


(** * Further properties of the LLM-backed filter *)

Section StripFacts.
Context {U : Unicode}.

Definition blank (s : str) : bool := forallb is_space s.

Lemma lstrip_blank (s : str) : blank s = true -> lstrip s = [].
Proof.
  induction s as [|c s IH]; simpl; [reflexivity|].
  intros H. apply andb_true_iff in H. destruct H as [Hc Hs].
  rewrite Hc. apply IH, Hs.
Qed.

Lemma lstrip_app (a b : str) :
  lstrip (a ++ b) = if blank a then lstrip b else lstrip a ++ b.
Proof.
  induction a as [|c a IH]; simpl; [reflexivity|].
  destruct (is_space c); simpl; [exact IH | reflexivity].
Qed.

Lemma blank_rev (s : str) : blank (rev s) = blank s.
Proof.
  unfold blank. induction s as [|c s IH]; simpl; [reflexivity|].
  rewrite forallb_app, IH. simpl. rewrite andb_true_r. apply andb_comm.
Qed.

Lemma blank_lstrip (s : str) : blank (lstrip s) = blank s.
Proof.
  induction s as [|c s IH]; simpl; [reflexivity|].
  destruct (is_space c) eqn:E; simpl; [exact IH|]. rewrite E. reflexivity.
Qed.

Lemma rstrip_app (a b : str) : blank b = true -> rstrip (a ++ b) = rstrip a.
Proof.
  intros H. unfold rstrip. rewrite rev_app_distr, lstrip_app, blank_rev, H.
  reflexivity.
Qed.

(** Blanks around a text do not survive [strip]. *)
Lemma strip_padding (before s after : str) :
  blank before = true -> blank after = true ->
  strip (before ++ s ++ after) = strip s.
Proof.
  intros Hb Ha. unfold strip. rewrite lstrip_app, Hb, lstrip_app.
  destruct (blank s) eqn:Hs.
  - rewrite (lstrip_blank after Ha), (lstrip_blank s Hs). reflexivity.
  - apply rstrip_app, Ha.
Qed.

End StripFacts.

Section LLMFacts.
Context {U : Unicode}.

Lemma firstn_nil_iff (A : Type) (l l' : list A) :
  firstn 3 l = firstn 3 l' -> (l = [] <-> l' = []).
Proof.
  destruct l, l'; simpl; intros H; try discriminate;
    split; intros E; (reflexivity || discriminate).
Qed.

Lemma system_prompt_first_three (refs refs' : list str) :
  firstn 3 refs = firstn 3 refs' ->
  build_system_prompt refs = build_system_prompt refs'.
Proof.
  intros H. unfold build_system_prompt, system_prompt_examples.
  destruct refs as [|r refs], refs' as [|r' refs']; try discriminate.
  - reflexivity.
  - rewrite H. reflexivity.
Qed.

(** The model sees the body of the issue only through its first 2000
    characters, and the reference problems only through the first three:
    two calls that agree on these, and on the title and the labels, get the
    same verdict from the same client. *)
Theorem llm_input_is_truncated (i i' : issue) (client : llm_client)
    (refs refs' : list str) :
  issue_title i = issue_title i' ->
  issue_labels i = issue_labels i' ->
  firstn 2000 (issue_body i) = firstn 2000 (issue_body i') ->
  firstn 3 refs = firstn 3 refs' ->
  is_suitable_programming_issue_llm i client refs =
  is_suitable_programming_issue_llm i' client refs'.
Proof.
  intros Ht Hl Hb Hr. unfold is_suitable_programming_issue_llm.
  rewrite (system_prompt_first_three refs refs' Hr).
  unfold build_user_prompt. rewrite Ht, Hl, Hb. reflexivity.
Qed.

(** Blanks around the text of the reply never change the verdict. *)
Theorem reply_padding_ignored (i : issue) (client client' : llm_client)
    (refs : list str) (before content after : str) (rest rest' : list (option str)) :
  blank before = true -> blank after = true ->
  (forall sp up, client sp up = Returns (Some content :: rest)) ->
  (forall sp up,
     client' sp up = Returns (Some (before ++ content ++ after) :: rest')) ->
  is_suitable_programming_issue_llm i client refs =
  is_suitable_programming_issue_llm i client' refs.
Proof.
  intros Hb Ha Hc Hc'. unfold is_suitable_programming_issue_llm.
  rewrite Hc, Hc'. cbn [response_text bind_attempt].
  rewrite (strip_padding before content after Hb Ha). reflexivity.
Qed.

(** When the reply does not hold the expected line, the reason quotes the
    reply up to its first 100 characters and no more. *)
Theorem fallback_reason_length (reply : str) :
  search suitable_pattern reply = None ->
  snd (parse_reply reply) =
    py "LLM assessment: " ++ firstn 100 reply ++ py "..." /\
  length (snd (parse_reply reply)) = (19 + Nat.min 100 (length reply))%nat.
Proof.
  intros H. unfold parse_reply. rewrite H.
  assert (E : forall b : bool,
    snd (if b
         then (true, py "LLM assessment: " ++ firstn 100 reply ++ py "...")
         else (false, py "LLM assessment: " ++ firstn 100 reply ++ py "..."))
    = py "LLM assessment: " ++ firstn 100 reply ++ py "...")
    by (intros []; reflexivity).
  rewrite E. split; [reflexivity|].
  rewrite !length_app, length_firstn.
  change (length (py "LLM assessment: ")) with 16%nat.
  change (length (py "...")) with 3%nat. lia.
Qed.

End LLMFacts.

Definition echo_client (content : str) : llm_client :=
  fun _ _ => Returns [Some content].

Lemma llm_input_is_truncated_witness :
  is_suitable_programming_issue_llm (Issue (py "Add cache") (py "body") [])
    (echo_client (py "SUITABLE: true - fine"))
    [py "a"; py "b"; py "c"; py "d"] =
  is_suitable_programming_issue_llm (Issue (py "Add cache") (py "body") [])
    (echo_client (py "SUITABLE: true - fine"))
    [py "a"; py "b"; py "c"; py "e"].
Proof.
  apply (@llm_input_is_truncated plain_unicode); reflexivity.
Defined.

Lemma reply_padding_ignored_witness :
  is_suitable_programming_issue_llm (Issue (py "Add cache") (py "body") [])
    (echo_client (py "SUITABLE: true - fine")) [] =
  is_suitable_programming_issue_llm (Issue (py "Add cache") (py "body") [])
    (echo_client ([SP] ++ py "SUITABLE: true - fine" ++ [NL])) [].
Proof.
  apply (@reply_padding_ignored plain_unicode _ _ _ _ [SP]
           (py "SUITABLE: true - fine") [NL] [] []);
    try reflexivity; intros sp up; reflexivity.
Defined.

Lemma fallback_reason_length_witness :
  search suitable_pattern (py "no") = None /\
  length (snd (parse_reply (py "no"))) = 21%nat.
Proof.
  split; [vm_compute; reflexivity|].
  destruct (@fallback_reason_length plain_unicode (py "no")) as [_ H];
    [vm_compute; reflexivity|].
  rewrite H. vm_compute. reflexivity.
Defined.

(** * Reference problems and file names *)

(** ** analyze.py: [load_reference_problems]

    The loop of [load_reference_problems] over the markdown files found, each
    given by its base name and by what reading it returns: its text, or
    nothing when the read raises. *)

Section References.
Context {U : Unicode}.

(** The body of the loop for one file that could be read. *)
Definition reference_entry (name raw : str) : option str :=
  let content := strip raw in
  match content with
  | [] => None
  | _ =>
    let content :=
      if (1500 <? length content)%nat
      then firstn 1500 content ++ py "..."
      else content in
    Some (py "**File: " ++ name ++ py "**" ++ [NL] ++ content)
  end.

Fixpoint load_reference_problems (files : list (str * option str))
    : list str :=
  match files with
  | [] => []
  | (name, None) :: rest => load_reference_problems rest
  | (name, Some raw) :: rest =>
    match reference_entry name raw with
    | Some entry => entry :: load_reference_problems rest
    | None => load_reference_problems rest
    end
  end.

Lemma reference_entry_shape (name raw entry : str) :
  reference_entry name raw = Some entry ->
  exists content,
    entry = py "**File: " ++ name ++ py "**" ++ [NL] ++ content /\
    content <> [] /\ (length content <= 1503)%nat /\
    firstn 1500 content = firstn 1500 (strip raw).
Proof.
  unfold reference_entry. destruct (strip raw) as [|c s] eqn:E; [discriminate|].
  intros H.
  destruct (1500 <? length (c :: s))%nat eqn:L.
  - exists (firstn 1500 (c :: s) ++ py "..."). split; [congruence|].
    apply Nat.ltb_lt in L. split; [|split].
    + intros Hnil. apply app_eq_nil in Hnil. destruct Hnil as [_ Hn].
      discriminate Hn.
    + rewrite length_app, length_firstn.
      change (length (py "...")) with 3%nat. lia.
    + rewrite firstn_app, length_firstn.
      replace (1500 - Nat.min 1500 (length (c :: s)))%nat with 0%nat by lia.
      rewrite firstn_firstn, firstn_O, app_nil_r, Nat.min_id.
      reflexivity.
  - exists (c :: s). split; [congruence|].
    apply Nat.ltb_ge in L. split; [discriminate|]. split; [lia|reflexivity].
Qed.

(** Every reference problem handed to the prompt is a header naming one of
    the files, then a text of at most 1503 characters that is not empty and
    starts as the stripped text of that file.  Unreadable files and files
    holding only blanks give no reference, so there are never more
    references than files. *)
Theorem reference_problems_bounded (files : list (str * option str)) :
  (forall entry, In entry (load_reference_problems files) ->
     exists name raw content,
       In (name, Some raw) files /\
       entry = py "**File: " ++ name ++ py "**" ++ [NL] ++ content /\
       content <> [] /\ (length content <= 1503)%nat /\
       firstn 1500 content = firstn 1500 (strip raw)) /\
  (length (load_reference_problems files) <= length files)%nat /\
  (forall name raw, blank raw = true -> reference_entry name raw = None).
Proof.
  split; [|split].
  - induction files as [|[name [raw|]] rest IH]; simpl; intros entry H.
    + contradiction.
    + destruct (reference_entry name raw) as [e|] eqn:E.
      * destruct H as [<-|H].
        -- destruct (reference_entry_shape name raw E) as [c Hc].
           exists name, raw, c. split; [left; reflexivity | exact Hc].
        -- destruct (IH entry H) as [n [r [c [Hin Hc]]]].
           exists n, r, c. split; [right; exact Hin | exact Hc].
      * destruct (IH entry H) as [n [r [c [Hin Hc]]]].
        exists n, r, c. split; [right; exact Hin | exact Hc].
    + destruct (IH entry H) as [n [r [c [Hin Hc]]]].
      exists n, r, c. split; [right; exact Hin | exact Hc].
  - induction files as [|[name [raw|]] rest IH]; simpl; [lia| |lia].
    destruct (reference_entry name raw); simpl; lia.
  - intros name raw H. unfold reference_entry, strip.
    rewrite (lstrip_blank raw H). reflexivity.
Qed.

End References.

(** ** Scratch.py: the name of the file of an issue *)

(** [str(n)] for a natural number. *)
Definition str_of_N (n : N) : str :=
  map N_of_ascii (list_ascii_of_string (NilEmpty.string_of_uint (N.to_uint n))).

Definition is_digit_char (c : char) : bool := (48 <=? c)%N && (c <=? 57)%N.

Lemma string_of_uint_digits (d : Decimal.uint) :
  forallb is_digit_char
    (map N_of_ascii (list_ascii_of_string (NilEmpty.string_of_uint d))) = true.
Proof.
  induction d; simpl; try exact IHd; reflexivity.
Qed.

Lemma str_of_N_digits (n : N) : forallb is_digit_char (str_of_N n) = true.
Proof.
  apply string_of_uint_digits.
Qed.

Section FileNames.
Context {U : Unicode}.

(** The characters of the title kept in the file name. *)
Definition kept (c : char) : bool :=
  is_alnum c || N.eqb c 32 || N.eqb c 95 || N.eqb c 45.

(** ["".join(c for c in title if ...).rstrip()] *)
Definition safe_title (title : str) : str := rstrip (filter kept title).

(** [f"issue_{number}_{safe_title[:50]}.md"] *)
Definition issue_filename (number : N) (title : str) : str :=
  py "issue_" ++ str_of_N number ++ py "_" ++ firstn 50 (safe_title title)
    ++ py ".md".

Lemma lstrip_incl (s : str) (c : char) : In c (lstrip s) -> In c s.
Proof.
  induction s as [|x s IH]; simpl; [tauto|].
  destruct (is_space x); [right; apply IH; assumption | tauto].
Qed.

Lemma rstrip_incl (s : str) (c : char) : In c (rstrip s) -> In c s.
Proof.
  unfold rstrip. intros H. apply in_rev in H. apply lstrip_incl in H.
  apply in_rev. exact H.
Qed.

Lemma firstn_incl (A : Type) (n : nat) (l : list A) (x : A) :
  In x (firstn n l) -> In x l.
Proof.
  revert l. induction n as [|n IH]; intros [|y l]; simpl; try tauto.
  intros [H|H]; [left; exact H | right; apply IH, H].
Qed.

Lemma safe_title_kept (title : str) (c : char) :
  In c (safe_title title) -> kept c = true.
Proof.
  intros H. apply rstrip_incl, filter_In in H. apply H.
Qed.

(** The separator characters of paths. *)
Definition separator (c : char) : bool := N.eqb c 47 || N.eqb c 92.

Lemma kept_not_separator (c : char) : kept c = true -> separator c = false.
Proof.
  unfold kept, separator.
  destruct (N.eqb_spec c 47) as [->|]; [|destruct (N.eqb_spec c 92) as [->|]].
  - rewrite (alnum_plain 47%N eq_refl). discriminate.
  - rewrite (alnum_plain 92%N eq_refl). discriminate.
  - reflexivity.
Qed.

Lemma digit_not_separator (c : char) :
  is_digit_char c = true -> separator c = false.
Proof.
  unfold is_digit_char, separator. intros H.
  apply andb_true_iff in H. destruct H as [H1 H2].
  apply N.leb_le in H1, H2.
  destruct (N.eqb_spec c 47); [lia|]. destruct (N.eqb_spec c 92); [lia|].
  reflexivity.
Qed.

(** Whatever the title of the issue, its file name holds neither [/] nor
    [\]: the file is written in the directory of its category.  The name
    keeps at most 50 characters of the title. *)
Theorem issue_filename_safe (number : N) (title : str) :
  forallb (fun c => negb (separator c)) (issue_filename number title) = true /\
  (length (issue_filename number title)
   <= 60 + length (str_of_N number))%nat.
Proof.
  split.
  - unfold issue_filename. rewrite !forallb_app.
    assert (D : forallb (fun c => negb (separator c)) (str_of_N number) = true).
    { apply forallb_forall. intros c Hc.
      pose proof (str_of_N_digits number) as F.
      rewrite forallb_forall in F.
      rewrite (digit_not_separator c (F c Hc)). reflexivity. }
    assert (T : forallb (fun c => negb (separator c))
                  (firstn 50 (safe_title title)) = true).
    { apply forallb_forall. intros c Hc. apply firstn_incl in Hc.
      rewrite (kept_not_separator c (safe_title_kept title c Hc)).
      reflexivity. }
    rewrite D, T. reflexivity.
  - unfold issue_filename. rewrite !length_app, length_firstn.
    change (length (py "issue_")) with 6%nat.
    change (length (py "_")) with 1%nat.
    change (length (py ".md")) with 3%nat. lia.
Qed.

End FileNames.

(** ** generate.py: [sanitize_filename] *)

(** The nine characters of the class that the first [re.sub] deletes:
    backslash, slash, star, question mark, colon, double quote, the two
    angle brackets and the bar. *)
Definition forbidden (c : char) : bool :=
  existsb (N.eqb c) [92; 47; 42; 63; 58; 34; 60; 62; 124]%N.

Section Sanitize.
Context {U : Unicode}.

(** [re.sub(r'\s+', ' ', s)]: every run of blanks becomes one space;
    [in_run] tells that the run has begun. *)
Fixpoint collapse (in_run : bool) (s : str) : str :=
  match s with
  | [] => []
  | c :: s' =>
    if is_space c
    then if in_run then collapse true s' else SP :: collapse true s'
    else c :: collapse false s'
  end.

Definition sanitize_filename (name : str) : str :=
  let sanitized := filter (fun c => negb (forbidden c)) name in
  let sanitized := strip (collapse false sanitized) in
  firstn 150 sanitized.

Lemma collapse_incl (s : str) (r : bool) (c : char) :
  In c (collapse r s) -> c = SP \/ (In c s /\ is_space c = false).
Proof.
  revert r. induction s as [|x s IH]; simpl; intros r H; [contradiction|].
  destruct (is_space x) eqn:E.
  - destruct r.
    + destruct (IH true H) as [->|[Hin Hs]]; [left; reflexivity|].
      right. split; [right; exact Hin | exact Hs].
    + destruct H as [<-|H]; [left; reflexivity|].
      destruct (IH true H) as [->|[Hin Hs]]; [left; reflexivity|].
      right. split; [right; exact Hin | exact Hs].
  - destruct H as [<-|H]; [right; split; [left; reflexivity | exact E]|].
    destruct (IH false H) as [->|[Hin Hs]]; [left; reflexivity|].
    right. split; [right; exact Hin | exact Hs].
Qed.

Lemma strip_incl (s : str) (c : char) : In c (strip s) -> In c s.
Proof.
  unfold strip. intros H. apply rstrip_incl, lstrip_incl in H. exact H.
Qed.

(** A sanitized name has at most 150 characters, none of them forbidden,
    and a blank in it is always the plain space. *)
Theorem sanitize_filename_clean (name : str) :
  (length (sanitize_filename name) <= 150)%nat /\
  (forall c, In c (sanitize_filename name) ->
     forbidden c = false /\ (is_space c = true -> c = SP)).
Proof.
  unfold sanitize_filename. split.
  - rewrite length_firstn. lia.
  - intros c H. apply firstn_incl, strip_incl, collapse_incl in H.
    destruct H as [->|[Hin Hs]].
    + split; [reflexivity | intros _; reflexivity].
    + apply filter_In in Hin. destruct Hin as [_ Hf].
      apply negb_true_iff in Hf. split; [exact Hf|].
      rewrite Hs. discriminate.
Qed.

End Sanitize.

(** * Further properties of the keyword scan *)

(** Offsets in increasing order, each at least [lo] and at least [g] after
    the one before. *)
Fixpoint spaced (g lo : nat) (l : list nat) : Prop :=
  match l with
  | [] => True
  | j :: l' => (lo <= j)%nat /\ spaced g (j + g) l'
  end.

Lemma spaced_weaken (g lo lo' : nat) (l : list nat) :
  (lo' <= lo)%nat -> spaced g lo l -> spaced g lo' l.
Proof.
  destruct l as [|j l]; simpl; [tauto|]. intros H [H1 H2]. split; [lia|exact H2].
Qed.

Section ScanFacts.
Context {U : Unicode}.

Lemma whole_word_here_empty (k : str) (b : option char) :
  k <> [] -> whole_word_here k b [] = false.
Proof.
  intros H. unfold whole_word_here. destruct k; [contradiction|].
  simpl. apply andb_false_r.
Qed.

Lemma scan_spaced (k : str) (s : str) (skip i : nat) (b : option char) :
  spaced (Nat.max 1 (length k)) (i + skip)
    (scan (keyword_pattern k) skip i b s).
Proof.
  revert skip i b. induction s as [|c s IH]; intros skip i b.
  - destruct skip as [|n]; [|exact I].
    rewrite scan_keyword_end. destruct (whole_word_here k b []);
      cbn [spaced]; [split; [lia | exact I] | exact I].
  - destruct skip as [|n].
    + rewrite scan_keyword_try. destruct (whole_word_here k b (c :: s)).
      * cbn [spaced]. split; [lia|].
        eapply spaced_weaken; [|apply (IH (length k - 1)%nat (S i) (Some c))].
        lia.
      * eapply spaced_weaken; [|apply (IH 0%nat (S i) (Some c))]. lia.
    + rewrite scan_keyword_skip.
      eapply spaced_weaken; [|apply (IH n (S i) (Some c))]. lia.
Qed.

Lemma scan_count (k : str) (s : str) (skip i : nat) (b : option char) :
  k <> [] -> (length (scan (keyword_pattern k) skip i b s) <= length s)%nat.
Proof.
  intros Hk. revert skip i b. induction s as [|c s IH]; intros skip i b.
  - destruct skip as [|n]; [|simpl; lia].
    rewrite scan_keyword_end, (whole_word_here_empty b Hk). simpl. lia.
  - destruct skip as [|n].
    + rewrite scan_keyword_try. destruct (whole_word_here k b (c :: s)).
      * simpl. specialize (IH (length k - 1)%nat (S i) (Some c)). lia.
      * simpl. specialize (IH 0%nat (S i) (Some c)). lia.
    + rewrite scan_keyword_skip. simpl. specialize (IH n (S i) (Some c)). lia.
Qed.

(** The matches that are counted never overlap: their offsets increase, two
    of them are at least the length of the keyword apart, and each lies
    inside the text.  A keyword is counted at most once per character of the
    text. *)
Theorem counted_matches_apart (keyword text : str) :
  spaced (Nat.max 1 (length keyword)) 0
    (findall (keyword_pattern keyword) text) /\
  (forall j, In j (findall (keyword_pattern keyword) text) ->
     (j + length keyword <= length text)%nat) /\
  (keyword <> [] -> (matches keyword text <= length text)%nat).
Proof.
  split; [|split].
  - apply (scan_spaced keyword text 0 0 None).
  - intros j H. apply findall_sound in H.
    destruct H as [pre [m [post [-> [<- [Hm _]]]]]].
    rewrite !length_app, (ic_equal_length Hm). lia.
  - intros Hk. apply scan_count, Hk.
Qed.

(** *** Appending text after a space *)

Lemma is_word_space : is_word SP = false.
Proof.
  rewrite (is_word_plain SP eq_refl). reflexivity.
Qed.

Lemma word_ahead_app_space (s w : str) :
  word_ahead (s ++ SP :: w) = word_ahead s.
Proof.
  destruct s; simpl; [apply is_word_space | reflexivity].
Qed.

Lemma at_boundary_app_space (b : option char) (s w : str) :
  at_boundary b (s ++ SP :: w) = at_boundary b s.
Proof.
  unfold at_boundary. rewrite word_ahead_app_space. reflexivity.
Qed.

Lemma ic_skip_app (k : str) (b : option char) (s x : str)
    (b' : option char) (s' : str) :
  ic_skip k b s = Some (b', s') -> ic_skip k b (s ++ x) = Some (b', s' ++ x).
Proof.
  revert b s. induction k as [|p k IH]; intros b s H; simpl in *.
  - injection H as <- <-. reflexivity.
  - destruct s as [|c s]; [discriminate|]. simpl.
    destruct (ic_eq p c); [apply IH, H | discriminate].
Qed.

Lemma ic_skip_app_none (k : str) (b : option char) (s x : str) :
  ic_skip k b s = None -> (length k <= length s)%nat ->
  ic_skip k b (s ++ x) = None.
Proof.
  revert b s. induction k as [|p k IH]; intros b s H L; simpl in *.
  - discriminate.
  - destruct s as [|c s]; [simpl in L; lia|]. simpl in *.
    destruct (ic_eq p c); [apply IH; [exact H | lia] | reflexivity].
Qed.

Lemma whole_word_here_app (k : str) (b : option char) (s w : str) :
  (length k <= length s)%nat ->
  whole_word_here k b (s ++ SP :: w) = whole_word_here k b s.
Proof.
  intros L. unfold whole_word_here. rewrite at_boundary_app_space.
  destruct (ic_skip k b s) as [[b' s']|] eqn:E.
  - rewrite (ic_skip_app _ _ _ (SP :: w) E), at_boundary_app_space.
    reflexivity.
  - rewrite (ic_skip_app_none _ _ _ (SP :: w) E L). reflexivity.
Qed.

Lemma whole_word_here_kept (k : str) (b : option char) (s w : str) :
  whole_word_here k b s = true -> whole_word_here k b (s ++ SP :: w) = true.
Proof.
  intros H. rewrite whole_word_here_app; [exact H|].
  unfold whole_word_here in H. apply andb_true_iff in H. destruct H as [_ H].
  destruct (ic_skip k b s) as [[b' s']|] eqn:E; [|discriminate].
  apply ic_skip_length in E. lia.
Qed.

Lemma scan_short (k : str) (s : str) (skip i : nat) (b : option char) :
  (length s < length k)%nat -> scan (keyword_pattern k) skip i b s = [].
Proof.
  revert skip i b. induction s as [|c s IH]; intros skip i b L.
  - destruct skip; [|reflexivity].
    rewrite scan_keyword_end, whole_word_here_empty; [reflexivity|].
    destruct k; [simpl in L; lia | discriminate].
  - simpl in L. destruct skip as [|n].
    + rewrite scan_keyword_try. unfold whole_word_here.
      rewrite ic_skip_short by (simpl; lia). rewrite andb_false_r.
      apply IH. lia.
    + rewrite scan_keyword_skip. apply IH. lia.
Qed.

Lemma scan_append (k : str) (s w : str) (skip i : nat) (b : option char) :
  (length (scan (keyword_pattern k) skip i b s)
   <= length (scan (keyword_pattern k) skip i b (s ++ SP :: w)))%nat.
Proof.
  revert skip i b. induction s as [|c s IH]; intros skip i b.
  - destruct skip as [|n]; [|simpl; lia].
    rewrite scan_keyword_end. cbn [app]. rewrite scan_keyword_try.
    destruct (whole_word_here k b []) eqn:E; [|simpl; lia].
    pose proof (whole_word_here_kept k b [] w E) as E'. cbn [app] in E'.
    rewrite E'. simpl. lia.
  - cbn [app]. destruct skip as [|n].
    + rewrite !scan_keyword_try.
      destruct (whole_word_here k b (c :: s)) eqn:E.
      * change (c :: s ++ SP :: w) with ((c :: s) ++ SP :: w).
        rewrite (whole_word_here_kept k b (c :: s) w E). simpl.
        specialize (IH (length k - 1)%nat (S i) (Some c)). lia.
      * destruct (whole_word_here k b (c :: s ++ SP :: w)) eqn:E'.
        -- destruct (Nat.le_gt_cases (length k) (length (c :: s))) as [L|L].
           ++ change (c :: s ++ SP :: w) with ((c :: s) ++ SP :: w) in E'.
              rewrite (whole_word_here_app k b (c :: s) w L) in E'.
              congruence.
           ++ rewrite scan_short by (simpl in L; lia). simpl. lia.
        -- apply IH.
    + rewrite !scan_keyword_skip. apply IH.
Qed.

Lemma matches_append (k s w : str) :
  (matches k s <= matches k (s ++ SP :: w))%nat.
Proof.
  apply scan_append.
Qed.

(** [str.lower] reads no further than a space to decide the form of a
    capital sigma, so the lowered text before a space is the same whatever
    follows the space. *)
Lemma skip_ignorable_app_space (s w : str) :
  match skip_ignorable (s ++ SP :: w) with
  | [] => true
  | c :: _ => negb (is_cased c)
  end =
  match skip_ignorable s with
  | [] => true
  | c :: _ => negb (is_cased c)
  end.
Proof.
  induction s as [|c s IH]; simpl.
  - rewrite ignorable_space, cased_space. reflexivity.
  - destruct (is_case_ignorable c); [exact IH | reflexivity].
Qed.

Lemma final_sigma_app_space (behind s w : str) :
  final_sigma behind (s ++ SP :: w) = final_sigma behind s.
Proof.
  unfold final_sigma. rewrite skip_ignorable_app_space. reflexivity.
Qed.

Lemma lower_from_app_space (behind t w : str) :
  lower_from behind (t ++ SP :: w) =
  lower_from behind t ++ SP :: lower_from (SP :: rev t ++ behind) w.
Proof.
  revert behind. induction t as [|c t IH]; intros behind.
  - simpl. rewrite (lower_plain SP eq_refl). reflexivity.
  - cbn [app lower_from rev]. rewrite IH, final_sigma_app_space.
    rewrite <- !app_assoc. reflexivity.
Qed.

Lemma lower_app_space (t w : str) :
  exists w', lower (t ++ SP :: w) = lower t ++ SP :: w'.
Proof.
  unfold lower. rewrite lower_from_app_space. eauto.
Qed.

Lemma Qsum_le (A : Type) (f g : A -> Q) (l : list A) :
  (forall x, f x <= g x) -> Qsum (map f l) <= Qsum (map g l).
Proof.
  intros H. induction l as [|x l IH]; simpl.
  - apply Qle_refl.
  - specialize (H x). lra.
Qed.

Lemma of_nat_le (n m : nat) : (n <= m)%nat -> of_nat n <= of_nat m.
Proof.
  intros H. unfold of_nat. rewrite <- Zle_Qle. lia.
Qed.

(** More text after a space never lowers a score: what was counted in the
    text is still counted when a space and any further text are appended.
    This holds for every keyword table, and for the exclusion score. *)
Theorem score_monotone_append (text more : str) (keyword_dict : lexicon) :
  _calculate_score text keyword_dict
  <= _calculate_score (text ++ SP :: more) keyword_dict /\
  _check_exclude_patterns text
  <= _check_exclude_patterns (text ++ SP :: more).
Proof.
  destruct (lower_app_space text more) as [w' E].
  split.
  - rewrite !calculate_score_sum. unfold weighted_sum. rewrite E.
    apply Qsum_le. intros tier. unfold tier_sum.
    apply Qsum_le. intros keyword.
    apply Qmult_le_compat_r.
    + apply of_nat_le, matches_append.
    + apply Qlt_le_weak, weight_multiplier_pos.
  - rewrite !check_exclude_sum. unfold exclude_sum. rewrite E.
    apply Qsum_le. intros keyword.
    apply Qmult_le_compat_r; [apply of_nat_le, matches_append | discriminate].
Qed.

End ScanFacts.

(** * The stored analysis *)

(** ** analyze.py: issues, the stored dictionary and its file

    An issue of the list that [parse_markdown_files] returns, with the keys
    the analysis reads and writes: ['id'] (the counter of the parser, from
    1), the text fields, ['suitable'] and ['reason']. *)
Record parsed : Type := Parsed {
  parsed_id : N;
  parsed_issue : issue;
  parsed_suitable : bool;
  parsed_reason : str
}.

(** [issue['suitable'] = ...; issue['reason'] = ...] *)
Definition mark (i : parsed) (is_suitable : bool) (reason : str) : parsed :=
  {| parsed_id := parsed_id i;
     parsed_issue := parsed_issue i;
     parsed_suitable := is_suitable;
     parsed_reason := reason |}.

(** The two kinds of value that [save_issues_analysis] writes: the dictionary
    under ['metadata'] and the dictionary of one issue. *)
Record metadata : Type := Metadata {
  generated_at : str;
  total_issues : nat;
  suitable_issues : nat;
  analysis_method : str;
  updated_issues : nat
}.

Record issue_data : Type := IssueData {
  data_title : str;
  data_suitable : bool;
  data_reason : str;
  data_labels : list str
}.

Inductive value : Type :=
| Meta (m : metadata)
| Data (d : issue_data).

(** A dictionary with string keys, in insertion order. *)
Definition analysis : Type := list (str * value).

(** [d.get(key)] *)
Fixpoint dict_get (key : str) (d : analysis) : option value :=
  match d with
  | [] => None
  | (k, v) :: d' => if str_eqb key k then Some v else dict_get key d'
  end.

(** [d[key] = v]: a key that is present keeps its place. *)
Fixpoint dict_set (key : str) (v : value) (d : analysis) : analysis :=
  match d with
  | [] => [(key, v)]
  | (k, v0) :: d' =>
    if str_eqb key k then (k, v) :: d' else (k, v0) :: dict_set key v d'
  end.

(** The keys of a stored value. *)
Definition keys (v : value) : list str :=
  match v with
  | Meta _ =>
    [ py "generated_at"; py "total_issues"; py "suitable_issues";
      py "analysis_method"; py "updated_issues" ]
  | Data _ => [ py "title"; py "suitable"; py "reason"; py "labels" ]
  end.

(** [v.get('suitable', False)] *)
Definition get_suitable (v : value) : bool :=
  match v with
  | Data d => data_suitable d
  | Meta _ => false
  end.

(** [v.get('reason', '')] *)
Definition get_reason (v : value) : str :=
  match v with
  | Data d => data_reason d
  | Meta _ => []
  end.

(** [json.load] of an object, from its pairs in the order of the file: the
    last value of a repeated key is kept. *)
Definition json_load (pairs : list (str * value)) : analysis :=
  fold_left (fun d kv => dict_set (fst kv) (snd kv) d) pairs [].

(** [load_existing_analysis]; the file is given by the pairs of the object
    it holds, or nothing when it does not exist or cannot be read. *)
Definition load_existing_analysis (json_file : option (list (str * value)))
    : analysis :=
  match json_file with
  | Some pairs => json_load pairs
  | None => []
  end.

Definition is_issue_analyzed (issue_id : N) (existing_data : analysis)
    : bool :=
  match dict_get (str_of_N issue_id) existing_data with
  | Some v => negb (mem (py "metadata") (keys v))
  | None => false
  end.

(** The first loop of [analyze_issues] and of [analyze_issues_with_llm], on
    one issue that has been analyzed. *)
Definition restore (existing_data : analysis) (i : parsed) : parsed :=
  match dict_get (str_of_N (parsed_id i)) existing_data with
  | Some existing_issue_data =>
    mark i (get_suitable existing_issue_data) (get_reason existing_issue_data)
  | None => i
  end.

Section Analysis.
Context {U : Unicode}.

(** [analyze_issues] changes the issues of its argument in place and returns
    [suitable_issues]; the model returns both, the argument first. *)
Definition analyze_issues (issues : list parsed)
    (output_file : option (list (str * value)))
    : list parsed * list parsed :=
  let existing_data := load_existing_analysis output_file in
  let analyzed i := is_issue_analyzed (parsed_id i) existing_data in
  let judge i :=
    let '(is_suitable, reason) :=
      is_suitable_programming_issue (parsed_issue i) in
    mark i is_suitable reason in
  let skipped := map (restore existing_data) (filter analyzed issues) in
  let suitable_issues := filter parsed_suitable skipped in
  let unanalyzed_issues := filter (fun i => negb (analyzed i)) issues in
  match unanalyzed_issues with
  | [] => (map (restore existing_data) issues, suitable_issues)
  | _ =>
    (map (fun i => if analyzed i then restore existing_data i else judge i)
       issues,
     suitable_issues ++ filter parsed_suitable (map judge unanalyzed_issues))
  end.

(** [analyze_issues_with_llm]; [api_key] is [os.getenv('ZHIPU_API_KEY')] and
    [client] the client built from it. *)
Definition analyze_issues_with_llm (issues : list parsed)
    (reference_files : list (str * option str))
    (output_file : option (list (str * value)))
    (api_key : option str) (client : llm_client)
    : list parsed * list parsed :=
  let existing_data := load_existing_analysis output_file in
  let analyzed i := is_issue_analyzed (parsed_id i) existing_data in
  let skipped := map (restore existing_data) (filter analyzed issues) in
  let suitable_issues := filter parsed_suitable skipped in
  let unanalyzed_issues := filter (fun i => negb (analyzed i)) issues in
  let restored :=
    map (fun i => if analyzed i then restore existing_data i else i) issues in
  match unanalyzed_issues with
  | [] => (restored, suitable_issues)
  | _ =>
    let reference_problems := load_reference_problems reference_files in
    match api_key with
    | None | Some [] => (restored, suitable_issues)
    | Some _ =>
      let judge i :=
        let '(is_suitable, reason) :=
          is_suitable_programming_issue_llm (parsed_issue i) client
            reference_problems in
        mark i is_suitable reason in
      (map (fun i => if analyzed i then restore existing_data i else judge i)
         issues,
       suitable_issues
         ++ filter parsed_suitable (map judge unanalyzed_issues))
    end
  end.

End Analysis.

(** ** analyze.py: [save_issues_analysis] *)

(** [str.isdigit] of the interpreter; on ASCII the digits are 0 to 9. *)
Class Digits : Type := {
  is_digit : char -> bool;
  digit_ascii : forall c, is_ascii c = true -> is_digit c = is_digit_char c
}.

#[export] Instance ascii_digits : Digits :=
  {| is_digit := is_digit_char; digit_ascii := fun c _ => eq_refl |}.

Definition issue_data_of (i : parsed) : issue_data :=
  {| data_title := issue_title (parsed_issue i);
     data_suitable := parsed_suitable i;
     data_reason := parsed_reason i;
     data_labels := issue_labels (parsed_issue i) |}.

Fixpoint labels_eqb (a b : list str) : bool :=
  match a, b with
  | [], [] => true
  | x :: a', y :: b' => str_eqb x y && labels_eqb a' b'
  | _, _ => false
  end.

(** [existing_data[issue_id] == issue_data] *)
Definition same_data (v : value) (d : issue_data) : bool :=
  match v with
  | Data e =>
    str_eqb (data_title e) (data_title d)
    && Bool.eqb (data_suitable e) (data_suitable d)
    && str_eqb (data_reason e) (data_reason d)
    && labels_eqb (data_labels e) (data_labels d)
  | Meta _ => false
  end.

(** The loop that copies the entries of the file, other than its metadata. *)
Definition merge_existing (existing_data results : analysis) : analysis :=
  fold_left
    (fun results kv =>
       if str_eqb (fst kv) (py "metadata") then results
       else dict_set (fst kv) (snd kv) results)
    existing_data results.

(** [issue_id not in existing_data or existing_data[issue_id] != issue_data] *)
Definition is_update (existing_data : analysis) (i : parsed) : bool :=
  match dict_get (str_of_N (parsed_id i)) existing_data with
  | None => true
  | Some v => negb (same_data v (issue_data_of i))
  end.

(** The loop that writes the issues of the run. *)
Definition store_issues (all_issues : list parsed) (results : analysis)
    : analysis :=
  fold_left
    (fun results i =>
       dict_set (str_of_N (parsed_id i)) (Data (issue_data_of i)) results)
    all_issues results.

(** The three assignments to [results['metadata'][...]]. *)
Definition set_counts (total suitable updated : nat) (results : analysis)
    : analysis :=
  match dict_get (py "metadata") results with
  | Some (Meta m) =>
    dict_set (py "metadata")
      (Meta {| generated_at := generated_at m;
               total_issues := total;
               suitable_issues := suitable;
               analysis_method := analysis_method m;
               updated_issues := updated |})
      results
  | _ => results
  end.

Section Save.
Context {D : Digits}.

(** [k.isdigit()] *)
Definition isdigit (k : str) : bool :=
  match k with
  | [] => false
  | _ => forallb is_digit k
  end.

(** [save_issues_analysis]: the dictionary written to the file.  [timestamp]
    is the time of the call and [json_file] the content of the file before
    it. *)
Definition save_issues_analysis (timestamp : str)
    (json_file : option (list (str * value))) (all_issues : list parsed)
    (analysis_method : str) : analysis :=
  let existing_data := load_existing_analysis json_file in
  let results :=
    [ (py "metadata",
       Meta {| generated_at := timestamp;
               total_issues := length all_issues;
               suitable_issues := length (filter parsed_suitable all_issues);
               analysis_method := analysis_method;
               updated_issues := 0 |}) ] in
  let results := merge_existing existing_data results in
  let updated_count :=
    length (filter (is_update existing_data) all_issues) in
  let results := store_issues all_issues results in
  let total_issues :=
    length (filter (fun kv => isdigit (fst kv)) results) in
  let suitable_issues :=
    length (filter (fun kv => isdigit (fst kv) && get_suitable (snd kv))
              results) in
  set_counts total_issues suitable_issues updated_count results.

End Save.

(** ** Properties of the stored analysis *)

Lemma str_eqb_refl (s : str) : str_eqb s s = true.
Proof.
  apply str_eqb_eq. reflexivity.
Qed.

Lemma str_eqb_neq (a b : str) : a <> b -> str_eqb a b = false.
Proof.
  intros H. destruct (str_eqb a b) eqn:E; [|reflexivity].
  apply str_eqb_eq in E. contradiction.
Qed.

Lemma labels_eqb_refl (l : list str) : labels_eqb l l = true.
Proof.
  induction l as [|x l IH]; simpl; [reflexivity|].
  rewrite str_eqb_refl. exact IH.
Qed.

Lemma same_data_refl (d : issue_data) : same_data (Data d) d = true.
Proof.
  unfold same_data.
  rewrite !str_eqb_refl, labels_eqb_refl, Bool.eqb_reflx. reflexivity.
Qed.

(** *** [str] of a number *)

Lemma str_of_N_inj (n m : N) : str_of_N n = str_of_N m -> n = m.
Proof.
  unfold str_of_N. intros H.
  apply (f_equal (map ascii_of_N)) in H. rewrite !map_map in H.
  rewrite !(map_ext _ (fun a => a) ascii_N_embedding), !map_id in H.
  apply (f_equal string_of_list_ascii) in H.
  rewrite !string_of_list_ascii_of_string in H.
  apply (f_equal NilEmpty.uint_of_string) in H.
  rewrite !NilEmpty.usu in H. injection H as H.
  apply Unsigned.to_uint_inj, H.
Qed.

Lemma str_of_N_not_empty (n : N) : str_of_N n <> [].
Proof.
  intros H. assert (E : str_of_N n = map N_of_ascii (list_ascii_of_string
                      (NilEmpty.string_of_uint Decimal.Nil))) by exact H.
  unfold str_of_N in E.
  apply (f_equal (map ascii_of_N)) in E. rewrite !map_map in E.
  rewrite !(map_ext _ (fun a => a) ascii_N_embedding), !map_id in E.
  apply (f_equal string_of_list_ascii) in E.
  rewrite !string_of_list_ascii_of_string in E.
  apply (f_equal NilEmpty.uint_of_string) in E.
  rewrite !NilEmpty.usu in E. injection E as E.
  destruct n as [|p]; [discriminate|].
  simpl in E. pose proof (DecimalPos.Unsigned.to_uint_nonnil p). contradiction.
Qed.

Lemma str_of_N_not_metadata (n : N) : str_of_N n <> py "metadata".
Proof.
  intros H. pose proof (str_of_N_digits n) as Hd. rewrite H in Hd.
  vm_compute in Hd. discriminate.
Qed.

(** *** Dictionaries *)

Lemma dict_get_set_same (k : str) (v : value) (d : analysis) :
  dict_get k (dict_set k v d) = Some v.
Proof.
  induction d as [|[k0 v0] d IH]; simpl.
  - rewrite str_eqb_refl. reflexivity.
  - destruct (str_eqb k k0) eqn:E; simpl; rewrite E; [reflexivity | exact IH].
Qed.

Lemma dict_get_set_other (k k' : str) (v : value) (d : analysis) :
  k <> k' -> dict_get k (dict_set k' v d) = dict_get k d.
Proof.
  intros H. induction d as [|[k0 v0] d IH]; simpl.
  - rewrite (str_eqb_neq H). reflexivity.
  - destruct (str_eqb k' k0) eqn:E; simpl.
    + apply str_eqb_eq in E. subst k0. rewrite (str_eqb_neq H). reflexivity.
    + rewrite IH. reflexivity.
Qed.

Lemma dict_get_none (k : str) (d : analysis) :
  dict_get k d = None <-> ~ In k (map fst d).
Proof.
  induction d as [|[k0 v0] d IH]; simpl.
  - tauto.
  - destruct (str_eqb k k0) eqn:E.
    + apply str_eqb_eq in E. subst. split; [discriminate | tauto].
    + rewrite IH. split.
      * intros H [H1|H1]; [|tauto].
        subst. rewrite str_eqb_refl in E. discriminate.
      * tauto.
Qed.

Lemma dict_set_same (k : str) (v : value) (d : analysis) :
  dict_get k d = Some v -> dict_set k v d = d.
Proof.
  induction d as [|[k0 v0] d IH]; simpl; [discriminate|].
  destruct (str_eqb k k0) eqn:E.
  - intros H. injection H as ->. reflexivity.
  - intros H. rewrite (IH H). reflexivity.
Qed.

Lemma dict_set_new (k : str) (v : value) (d : analysis) :
  dict_get k d = None -> dict_set k v d = d ++ [(k, v)].
Proof.
  induction d as [|[k0 v0] d IH]; simpl; [reflexivity|].
  destruct (str_eqb k k0); [discriminate|].
  intros H. rewrite (IH H). reflexivity.
Qed.

Lemma dict_set_keys (k : str) (v : value) (d : analysis) :
  map fst (dict_set k v d) =
  match dict_get k d with
  | Some _ => map fst d
  | None => map fst d ++ [k]
  end.
Proof.
  induction d as [|[k0 v0] d IH]; simpl; [reflexivity|].
  destruct (str_eqb k k0) eqn:E; simpl; [reflexivity|].
  rewrite IH. destruct (dict_get k d); reflexivity.
Qed.

Lemma dict_set_nodup (k : str) (v : value) (d : analysis) :
  NoDup (map fst d) -> NoDup (map fst (dict_set k v d)).
Proof.
  intros H. rewrite dict_set_keys. destruct (dict_get k d) eqn:E; [exact H|].
  apply dict_get_none in E.
  apply NoDup_rev in H. rewrite <- (rev_involutive (map fst d ++ [k])).
  apply NoDup_rev. rewrite rev_app_distr. simpl. constructor; [|exact H].
  rewrite <- in_rev. exact E.
Qed.

(** Writing pairs with new, distinct keys appends them in order. *)
Lemma write_new (new r : analysis) :
  NoDup (map fst r ++ map fst new) ->
  fold_left (fun d kv => dict_set (fst kv) (snd kv) d) new r = r ++ new.
Proof.
  revert r. induction new as [|[k v] new IH]; intros r H; simpl.
  - rewrite app_nil_r. reflexivity.
  - simpl in H. pose proof (NoDup_remove_2 _ _ _ H) as Hk.
    rewrite dict_set_new.
    + rewrite IH.
      * rewrite <- app_assoc. reflexivity.
      * rewrite map_app, <- app_assoc. exact H.
    + apply dict_get_none. intros Hin. apply Hk, in_or_app. left. exact Hin.
Qed.

Lemma json_load_nodup (pairs : list (str * value)) :
  NoDup (map fst (json_load pairs)).
Proof.
  unfold json_load.
  assert (G : forall r, NoDup (map fst r) ->
            NoDup (map fst (fold_left
              (fun d kv => dict_set (fst kv) (snd kv) d) pairs r))).
  { induction pairs as [|kv pairs IH]; intros r H; simpl; [exact H|].
    apply IH, dict_set_nodup, H. }
  apply G. constructor.
Qed.

(** A dictionary written to a file and read again is the same dictionary. *)
Lemma json_load_dump (d : analysis) :
  NoDup (map fst d) -> json_load d = d.
Proof.
  intros H. unfold json_load. rewrite write_new; [reflexivity | exact H].
Qed.

(** *** The loops of [save_issues_analysis] *)

Lemma merge_existing_get (key : str) (existing results : analysis) :
  NoDup (map fst existing) -> key <> py "metadata" ->
  dict_get key (merge_existing existing results) =
  match dict_get key existing with
  | Some v => Some v
  | None => dict_get key results
  end.
Proof.
  intros Hn Hk. unfold merge_existing. revert results Hn.
  induction existing as [|[k v] e IH]; intros results Hn; [reflexivity|].
  cbn [fold_left fst snd dict_get map] in *.
  inversion Hn as [|? ? Hnot Hn']; subst.
  rewrite (IH _ Hn'). destruct (str_eqb key k) eqn:E.
  - apply str_eqb_eq in E. subst k.
    apply dict_get_none in Hnot. rewrite Hnot.
    rewrite (str_eqb_neq Hk). apply dict_get_set_same.
  - destruct (dict_get key e); [reflexivity|].
    destruct (str_eqb k (py "metadata")); [reflexivity|].
    apply dict_get_set_other. intros ->. rewrite str_eqb_refl in E.
    discriminate.
Qed.

Lemma merge_existing_nodup (existing results : analysis) :
  NoDup (map fst results) -> NoDup (map fst (merge_existing existing results)).
Proof.
  unfold merge_existing. revert results.
  induction existing as [|[k v] e IH]; intros results H; [exact H|].
  cbn [fold_left fst snd]. apply IH.
  destruct (str_eqb k (py "metadata")); [exact H | apply dict_set_nodup, H].
Qed.

Lemma merge_existing_metadata (existing results : analysis) :
  dict_get (py "metadata") (merge_existing existing results) =
  dict_get (py "metadata") results.
Proof.
  unfold merge_existing. revert results.
  induction existing as [|[k v] e IH]; intros results; [reflexivity|].
  cbn [fold_left fst snd]. rewrite IH.
  destruct (str_eqb k (py "metadata")) eqn:E; [reflexivity|].
  apply dict_get_set_other. intros H. rewrite <- H, str_eqb_refl in E.
  discriminate.
Qed.

Lemma store_issues_other (key : str) (issues : list parsed)
    (results : analysis) :
  (forall i, In i issues -> str_of_N (parsed_id i) <> key) ->
  dict_get key (store_issues issues results) = dict_get key results.
Proof.
  unfold store_issues. revert results.
  induction issues as [|a l IH]; intros results H; [reflexivity|].
  cbn [fold_left]. rewrite IH.
  - apply dict_get_set_other. intros E. apply (H a); [left; reflexivity|].
    symmetry. exact E.
  - intros i Hi. apply H. right. exact Hi.
Qed.

Lemma store_issues_keeps_data (key : str) (issues : list parsed)
    (results : analysis) :
  (exists d, dict_get key results = Some (Data d)) ->
  exists d, dict_get key (store_issues issues results) = Some (Data d).
Proof.
  unfold store_issues. revert results.
  induction issues as [|a l IH]; intros results H; [exact H|].
  cbn [fold_left]. apply IH.
  destruct (str_eqb key (str_of_N (parsed_id a))) eqn:E.
  - apply str_eqb_eq in E. subst key. rewrite dict_get_set_same. eauto.
  - rewrite dict_get_set_other; [exact H|].
    intros ->. rewrite str_eqb_refl in E. discriminate.
Qed.

Lemma store_issues_data (i : parsed) (issues : list parsed)
    (results : analysis) :
  In i issues ->
  exists d,
    dict_get (str_of_N (parsed_id i)) (store_issues issues results)
    = Some (Data d).
Proof.
  revert results. induction issues as [|a l IH]; intros results H;
    [contradiction|].
  destruct H as [->|H].
  - change (store_issues (i :: l) results)
      with (store_issues l (dict_set (str_of_N (parsed_id i))
                              (Data (issue_data_of i)) results)).
    apply store_issues_keeps_data. rewrite dict_get_set_same. eauto.
  - apply (IH _ H).
Qed.

Lemma store_issues_own (i : parsed) (issues : list parsed)
    (results : analysis) :
  NoDup (map parsed_id issues) -> In i issues ->
  dict_get (str_of_N (parsed_id i)) (store_issues issues results)
  = Some (Data (issue_data_of i)).
Proof.
  revert results. induction issues as [|a l IH]; intros results Hn H;
    [contradiction|].
  inversion Hn as [|? ? Hnot Hn']; subst.
  change (store_issues (a :: l) results)
    with (store_issues l (dict_set (str_of_N (parsed_id a))
                            (Data (issue_data_of a)) results)).
  destruct H as [->|H].
  - rewrite store_issues_other; [apply dict_get_set_same|].
    intros j Hj E. apply str_of_N_inj in E. apply Hnot.
    rewrite <- E. apply in_map, Hj.
  - apply (IH _ Hn' H).
Qed.

Lemma store_issues_nodup (issues : list parsed) (results : analysis) :
  NoDup (map fst results) -> NoDup (map fst (store_issues issues results)).
Proof.
  unfold store_issues. revert results.
  induction issues as [|a l IH]; intros results H; [exact H|].
  cbn [fold_left]. apply IH, dict_set_nodup, H.
Qed.

Lemma set_counts_get (key : str) (t s u : nat) (results : analysis) :
  key <> py "metadata" ->
  dict_get key (set_counts t s u results) = dict_get key results.
Proof.
  intros H. unfold set_counts.
  destruct (dict_get (py "metadata") results) as [[m|d]|]; try reflexivity.
  apply dict_get_set_other, H.
Qed.

Lemma data_not_metadata (d : issue_data) :
  mem (py "metadata") (keys (Data d)) = false.
Proof.
  vm_compute. reflexivity.
Qed.

Section StoreFacts.
Context {U : Unicode} {D : Digits}.

Lemma saved_get (timestamp : str) (json_file : option (list (str * value)))
    (all_issues : list parsed) (method key : str) :
  key <> py "metadata" ->
  dict_get key (save_issues_analysis timestamp json_file all_issues method) =
  dict_get key
    (store_issues all_issues
       (merge_existing (load_existing_analysis json_file)
          [ (py "metadata",
             Meta {| generated_at := timestamp;
                     total_issues := length all_issues;
                     suitable_issues :=
                       length (filter parsed_suitable all_issues);
                     analysis_method := method;
                     updated_issues := 0 |}) ])).
Proof.
  intros H. unfold save_issues_analysis. cbv zeta.
  apply set_counts_get, H.
Qed.

(** Every issue that is saved counts as analyzed in the file written, so the
    next run over that file skips it. *)
Theorem saved_issue_is_analyzed (timestamp : str)
    (json_file : option (list (str * value))) (all_issues : list parsed)
    (method : str) (i : parsed) :
  In i all_issues ->
  is_issue_analyzed (parsed_id i)
    (save_issues_analysis timestamp json_file all_issues method) = true.
Proof.
  intros H. unfold is_issue_analyzed.
  rewrite saved_get by apply str_of_N_not_metadata.
  destruct (store_issues_data i all_issues
              (merge_existing (load_existing_analysis json_file)
                 [ (py "metadata",
                    Meta {| generated_at := timestamp;
                            total_issues := length all_issues;
                            suitable_issues :=
                              length (filter parsed_suitable all_issues);
                            analysis_method := method;
                            updated_issues := 0 |}) ]) H) as [d ->].
  rewrite data_not_metadata. reflexivity.
Qed.

Lemma load_nodup (json_file : option (list (str * value))) :
  NoDup (map fst (load_existing_analysis json_file)).
Proof.
  destruct json_file as [pairs|]; simpl; [apply json_load_nodup | constructor].
Qed.

(** Saving merges with the file: an entry of the file whose key is not the
    id of an issue of the run is written back unchanged. *)
Theorem old_entries_kept (timestamp : str)
    (json_file : option (list (str * value))) (all_issues : list parsed)
    (method key : str) (v : value) :
  dict_get key (load_existing_analysis json_file) = Some v ->
  key <> py "metadata" ->
  (forall i, In i all_issues -> str_of_N (parsed_id i) <> key) ->
  dict_get key (save_issues_analysis timestamp json_file all_issues method)
  = Some v.
Proof.
  intros Hv Hk Hnew. rewrite saved_get by exact Hk.
  rewrite store_issues_other by exact Hnew.
  rewrite merge_existing_get by (apply load_nodup || exact Hk).
  rewrite Hv. reflexivity.
Qed.

Lemma saved_own (timestamp : str)
    (json_file : option (list (str * value))) (all_issues : list parsed)
    (method : str) (i : parsed) :
  NoDup (map parsed_id all_issues) -> In i all_issues ->
  dict_get (str_of_N (parsed_id i))
    (save_issues_analysis timestamp json_file all_issues method)
  = Some (Data (issue_data_of i)).
Proof.
  intros Hn Hi. rewrite saved_get by apply str_of_N_not_metadata.
  apply store_issues_own; assumption.
Qed.

End StoreFacts.

(** *** The shape of the file written *)

Lemma dict_set_tail (k k0 : str) (v v0 : value) (d : analysis) :
  k <> k0 -> dict_set k v ((k0, v0) :: d) = (k0, v0) :: dict_set k v d.
Proof.
  intros H. cbn [dict_set]. rewrite (str_eqb_neq H). reflexivity.
Qed.

Lemma merge_existing_tail (existing : analysis) (m : value) (d : analysis) :
  merge_existing existing ((py "metadata", m) :: d) =
  (py "metadata", m) :: merge_existing existing d.
Proof.
  unfold merge_existing. revert d.
  induction existing as [|[k v] e IH]; intros d; [reflexivity|].
  cbn [fold_left fst snd]. destruct (str_eqb k (py "metadata")) eqn:E.
  - apply IH.
  - rewrite dict_set_tail; [apply IH|].
    intros ->. rewrite str_eqb_refl in E. discriminate.
Qed.

Lemma store_issues_tail (issues : list parsed) (m : value) (d : analysis) :
  store_issues issues ((py "metadata", m) :: d) =
  (py "metadata", m) :: store_issues issues d.
Proof.
  unfold store_issues. revert d.
  induction issues as [|a l IH]; intros d; [reflexivity|].
  cbn [fold_left]. rewrite dict_set_tail by apply str_of_N_not_metadata.
  apply IH.
Qed.

Lemma set_counts_head (t s u : nat) (m : metadata) (d : analysis) :
  set_counts t s u ((py "metadata", Meta m) :: d) =
  (py "metadata",
   Meta {| generated_at := generated_at m;
           total_issues := t;
           suitable_issues := s;
           analysis_method := analysis_method m;
           updated_issues := u |}) :: d.
Proof.
  unfold set_counts. cbn [dict_get dict_set]. rewrite str_eqb_refl.
  reflexivity.
Qed.

Lemma merge_existing_plain (existing results : analysis) :
  ~ In (py "metadata") (map fst existing) ->
  merge_existing existing results =
  fold_left (fun d kv => dict_set (fst kv) (snd kv) d) existing results.
Proof.
  unfold merge_existing. revert results.
  induction existing as [|[k v] e IH]; intros results H; [reflexivity|].
  cbn [fold_left fst snd map In] in *.
  rewrite str_eqb_neq by (intros E; apply H; left; exact E).
  apply IH. intros Hin. apply H. right. exact Hin.
Qed.

Lemma store_issues_fixed (issues : list parsed) (results : analysis) :
  (forall i, In i issues ->
     dict_get (str_of_N (parsed_id i)) results
     = Some (Data (issue_data_of i))) ->
  store_issues issues results = results.
Proof.
  unfold store_issues. induction issues as [|a l IH]; intros H;
    [reflexivity|].
  cbn [fold_left]. rewrite dict_set_same by (apply H; left; reflexivity).
  apply IH. intros i Hi. apply H. right. exact Hi.
Qed.

Lemma merge_existing_keys (existing results : analysis) :
  ~ In (py "metadata") (map fst results) ->
  ~ In (py "metadata") (map fst (merge_existing existing results)).
Proof.
  unfold merge_existing. revert results.
  induction existing as [|[k v] e IH]; intros results H; [exact H|].
  cbn [fold_left fst snd]. apply IH.
  destruct (str_eqb k (py "metadata")) eqn:E; [exact H|].
  rewrite dict_set_keys. destruct (dict_get k results); [exact H|].
  intros Hin. apply in_app_or in Hin. destruct Hin as [Hin|[Hin|[]]];
    [exact (H Hin)|].
  rewrite Hin, str_eqb_refl in E. discriminate.
Qed.

Lemma store_issues_keys (issues : list parsed) (results : analysis) :
  ~ In (py "metadata") (map fst results) ->
  ~ In (py "metadata") (map fst (store_issues issues results)).
Proof.
  unfold store_issues. revert results.
  induction issues as [|a l IH]; intros results H; [exact H|].
  cbn [fold_left]. apply IH.
  rewrite dict_set_keys.
  destruct (dict_get (str_of_N (parsed_id a)) results); [exact H|].
  intros Hin. apply in_app_or in Hin. destruct Hin as [Hin|[Hin|[]]];
    [exact (H Hin)|].
  exact (@str_of_N_not_metadata _ Hin).
Qed.

Lemma str_of_N_nodup (ids : list N) :
  NoDup ids -> NoDup (map str_of_N ids).
Proof.
  induction 1 as [|n l Hnot Hn IH]; simpl; constructor; [|exact IH].
  intros Hin. apply in_map_iff in Hin. destruct Hin as [m [E Hm]].
  apply str_of_N_inj in E. subst. contradiction.
Qed.

Section Shape.
Context {D : Digits}.

Lemma isdigit_metadata : isdigit (py "metadata") = false.
Proof.
  assert (E : py "metadata" = [109; 101; 116; 97; 100; 97; 116; 97]%N)
    by (vm_compute; reflexivity).
  rewrite E. cbn [isdigit forallb].
  rewrite (@digit_ascii _ 109%N eq_refl). reflexivity.
Qed.

Lemma isdigit_str_of_N (n : N) : isdigit (str_of_N n) = true.
Proof.
  pose proof (str_of_N_not_empty n) as Hne.
  pose proof (str_of_N_digits n) as Hd.
  destruct (str_of_N n) as [|c s] eqn:E; [contradiction|].
  unfold isdigit. apply forallb_forall. intros x Hx.
  pose proof (proj1 (forallb_forall _ _) Hd x Hx) as Hx'.
  rewrite digit_ascii; [exact Hx'|].
  unfold is_digit_char in Hx'. apply andb_true_iff in Hx'.
  destruct Hx' as [_ Hx']. apply N.leb_le in Hx'.
  unfold is_ascii. apply N.ltb_lt. lia.
Qed.

(** The entries of the file written: those of the file read, then the issues
    of the run. *)
Definition saved_entries (json_file : option (list (str * value)))
    (all_issues : list parsed) : analysis :=
  store_issues all_issues
    (merge_existing (load_existing_analysis json_file) []).

Lemma saved_shape (timestamp : str)
    (json_file : option (list (str * value))) (all_issues : list parsed)
    (method : str) :
  save_issues_analysis timestamp json_file all_issues method =
  (py "metadata",
   Meta {| generated_at := timestamp;
           total_issues :=
             length (filter (fun kv => isdigit (fst kv))
                       (saved_entries json_file all_issues));
           suitable_issues :=
             length (filter (fun kv => isdigit (fst kv)
                                       && get_suitable (snd kv))
                       (saved_entries json_file all_issues));
           analysis_method := method;
           updated_issues :=
             length (filter (is_update (load_existing_analysis json_file))
                       all_issues) |})
    :: saved_entries json_file all_issues.
Proof.
  unfold save_issues_analysis, saved_entries. cbv zeta.
  rewrite merge_existing_tail, store_issues_tail, set_counts_head.
  cbn [filter fst snd generated_at analysis_method].
  rewrite isdigit_metadata. reflexivity.
Qed.

Lemma saved_entries_keys (json_file : option (list (str * value)))
    (all_issues : list parsed) :
  NoDup (map fst (saved_entries json_file all_issues)) /\
  ~ In (py "metadata") (map fst (saved_entries json_file all_issues)).
Proof.
  unfold saved_entries. split.
  - apply store_issues_nodup, merge_existing_nodup. constructor.
  - apply store_issues_keys, merge_existing_keys. intros [].
Qed.

Lemma saved_entries_own (json_file : option (list (str * value)))
    (all_issues : list parsed) (i : parsed) :
  NoDup (map parsed_id all_issues) -> In i all_issues ->
  dict_get (str_of_N (parsed_id i)) (saved_entries json_file all_issues)
  = Some (Data (issue_data_of i)).
Proof.
  intros Hn Hi. apply store_issues_own; assumption.
Qed.

(** Saving the same issues a second time changes no entry and no count: the
    file written differs from the first only in its time and method, and it
    reports no updated issue. *)
Theorem second_save_updates_nothing (first_time second_time : str)
    (json_file : option (list (str * value))) (all_issues : list parsed)
    (first_method second_method : str) :
  NoDup (map parsed_id all_issues) ->
  exists m entries,
    save_issues_analysis first_time json_file all_issues first_method
    = (py "metadata", Meta m) :: entries /\
    save_issues_analysis second_time
      (Some (save_issues_analysis first_time json_file all_issues
               first_method))
      all_issues second_method
    = (py "metadata",
       Meta {| generated_at := second_time;
               total_issues := total_issues m;
               suitable_issues := suitable_issues m;
               analysis_method := second_method;
               updated_issues := 0 |}) :: entries.
Proof.
  intros Hn.
  destruct (saved_entries_keys json_file all_issues) as [Hnd Hmd].
  pose proof (saved_shape first_time json_file all_issues first_method) as E1.
  set (R := saved_entries json_file all_issues) in *.
  set (m := {| generated_at := first_time;
               total_issues := length (filter (fun kv => isdigit (fst kv)) R);
               suitable_issues :=
                 length (filter (fun kv => isdigit (fst kv)
                                           && get_suitable (snd kv)) R);
               analysis_method := first_method;
               updated_issues :=
                 length (filter
                           (is_update (load_existing_analysis json_file))
                           all_issues) |}) in *.
  exists m, R. split; [exact E1|].
  rewrite E1. rewrite saved_shape.
  match goal with
  | |- context [saved_entries ?f all_issues] =>
    assert (Hload : load_existing_analysis f = (py "metadata", Meta m) :: R);
    [|assert (HR : saved_entries f all_issues = R)]
  end.
  { apply json_load_dump. cbn [map fst]. constructor; assumption. }
  { unfold saved_entries at 1. rewrite Hload.
    unfold merge_existing at 1. cbn [fold_left fst snd].
    rewrite str_eqb_refl.
    change (store_issues all_issues (merge_existing R []) = R).
    rewrite merge_existing_plain by exact Hmd.
    rewrite write_new by exact Hnd. cbn [app].
    apply store_issues_fixed. intros i Hi.
    apply saved_entries_own; assumption. }
  rewrite HR, Hload.
  assert (Hup : filter (is_update ((py "metadata", Meta m) :: R)) all_issues
                = []).
  { assert (G : forall l, (forall i, In i l -> In i all_issues) ->
                filter (is_update ((py "metadata", Meta m) :: R)) l = []).
    { induction l as [|a l IH]; intros Hl; [reflexivity|].
      cbn [filter]. rewrite IH by (intros i Hi; apply Hl; right; exact Hi).
      unfold is_update. cbn [dict_get].
      rewrite (str_eqb_neq (@str_of_N_not_metadata (parsed_id a))).
      pose proof (@saved_entries_own json_file all_issues a Hn
                    (Hl a (or_introl eq_refl))) as Hown.
      change (saved_entries json_file all_issues) with R in Hown.
      rewrite Hown.
      rewrite same_data_refl. reflexivity. }
    apply G. auto. }
  rewrite Hup. reflexivity.
Qed.

Lemma entries_count (issues : list parsed) :
  let entries :=
    map (fun i => (str_of_N (parsed_id i), Data (issue_data_of i))) issues in
  length (filter (fun kv => isdigit (fst kv)) entries) = length issues /\
  length (filter (fun kv => isdigit (fst kv) && get_suitable (snd kv))
            entries)
  = length (filter parsed_suitable issues).
Proof.
  induction issues as [|a l [IH1 IH2]]; [split; reflexivity|].
  cbn [map filter fst snd]. rewrite isdigit_str_of_N.
  cbn [andb get_suitable issue_data_of data_suitable].
  split.
  - cbn [length]. f_equal. exact IH1.
  - destruct (parsed_suitable a); cbn [length]; [f_equal|]; exact IH2.
Qed.

(** With no file to read, saving issues of distinct ids writes the metadata
    followed by one entry per issue, in order; every issue counts as
    updated, and the counts are those of the run. *)
Theorem first_save (timestamp : str) (all_issues : list parsed)
    (method : str) :
  NoDup (map parsed_id all_issues) ->
  save_issues_analysis timestamp None all_issues method =
  (py "metadata",
   Meta {| generated_at := timestamp;
           total_issues := length all_issues;
           suitable_issues := length (filter parsed_suitable all_issues);
           analysis_method := method;
           updated_issues := length all_issues |})
    :: map (fun i => (str_of_N (parsed_id i), Data (issue_data_of i)))
         all_issues.
Proof.
  intros Hn. rewrite saved_shape.
  assert (E : saved_entries None all_issues =
              [] ++ map (fun i => (str_of_N (parsed_id i),
                                   Data (issue_data_of i))) all_issues).
  { unfold saved_entries, store_issues. cbn [load_existing_analysis].
    change (merge_existing [] []) with (@nil (str * value)).
    rewrite <- (write_new _ []).
    - clear Hn. generalize (@nil (str * value)).
      induction all_issues as [|a l IH]; intros r; [reflexivity|].
      cbn [fold_left map fst snd]. apply IH.
    - cbn [map app]. rewrite map_map. cbn [fst].
      rewrite <- (map_map parsed_id str_of_N).
      apply str_of_N_nodup, Hn. }
  cbn [app] in E. rewrite E.
  destruct (entries_count all_issues) as [-> ->].
  assert (Hall : forall l : list parsed,
            filter (is_update (load_existing_analysis None)) l = l).
  { induction l as [|a l IH]; [reflexivity|].
    cbn [filter]. rewrite IH. reflexivity. }
  rewrite Hall. reflexivity.
Qed.

End Shape.

(** *** Running again over a saved file *)

Section Rerun.
Context {U : Unicode} {D : Digits}.

(** The same issue, whatever its marks. *)
Definition same_issue (a b : parsed) : Prop :=
  parsed_id a = parsed_id b /\ parsed_issue a = parsed_issue b.

Lemma restore_saved (data : analysis) (a b : parsed) :
  same_issue a b ->
  dict_get (str_of_N (parsed_id b)) data = Some (Data (issue_data_of b)) ->
  is_issue_analyzed (parsed_id a) data = true /\ restore data a = b.
Proof.
  intros [Hid Hi] Hget. unfold is_issue_analyzed, restore.
  rewrite Hid, Hget. split; [reflexivity|].
  destruct a, b; simpl in *. subst. reflexivity.
Qed.

Lemma all_restored (data : analysis) (issues' issues : list parsed) :
  Forall2 same_issue issues' issues ->
  (forall b, In b issues ->
     dict_get (str_of_N (parsed_id b)) data
     = Some (Data (issue_data_of b))) ->
  map (restore data) issues' = issues /\
  filter (fun i => is_issue_analyzed (parsed_id i) data) issues' = issues' /\
  filter (fun i => negb (is_issue_analyzed (parsed_id i) data)) issues' = [].
Proof.
  intros F. induction F as [|a b l' l Hab F IH]; intros H.
  - repeat split.
  - destruct (@restore_saved data a b Hab (H b (or_introl eq_refl)))
      as [Ha Hr].
    destruct IH as [I1 [I2 I3]]; [intros x Hx; apply H; right; exact Hx|].
    cbn [map filter]. rewrite Ha, Hr, I1, I2. cbn [negb]. rewrite I3.
    repeat split.
Qed.

(** A run over the file that the previous run saved analyzes nothing again:
    each issue gets back the verdict and the reason that were saved, and the
    issues returned are the suitable ones among them.  The model is not
    called, with or without an API key. *)
Theorem rerun_reuses_verdicts (timestamp : str)
    (json_file : option (list (str * value))) (all_issues : list parsed)
    (method : str) (issues : list parsed) :
  NoDup (map parsed_id all_issues) ->
  Forall2 same_issue issues all_issues ->
  let saved :=
    Some (save_issues_analysis timestamp json_file all_issues method) in
  analyze_issues issues saved
  = (all_issues, filter parsed_suitable all_issues) /\
  forall reference_files api_key client,
    analyze_issues_with_llm issues reference_files saved api_key client
    = (all_issues, filter parsed_suitable all_issues).
Proof.
  intros Hn F saved.
  assert (Hload : load_existing_analysis saved
                  = save_issues_analysis timestamp json_file all_issues
                      method).
  { unfold saved. cbn [load_existing_analysis]. apply json_load_dump.
    rewrite saved_shape. cbn [map fst].
    destruct (saved_entries_keys json_file all_issues) as [H1 H2].
    constructor; assumption. }
  destruct (@all_restored (load_existing_analysis saved) issues all_issues F)
    as [H1 [H2 H3]].
  { intros b Hb. rewrite Hload. apply saved_own; assumption. }
  split.
  - unfold analyze_issues. cbv zeta. rewrite H3, H2, H1. reflexivity.
  - intros reference_files api_key client.
    unfold analyze_issues_with_llm. cbv zeta. rewrite H3, H2, H1.
    f_equal.
    transitivity (map (restore (load_existing_analysis saved)) issues);
      [|exact H1].
    apply map_ext_in. intros a Ha.
    assert (Hf : In a (filter (fun i => is_issue_analyzed (parsed_id i)
                                 (load_existing_analysis saved)) issues))
      by (rewrite H2; exact Ha).
    apply filter_In in Hf. destruct Hf as [_ ->]. reflexivity.
Qed.

End Rerun.

(** *** Examples *)

Definition typo_issue : issue := Issue (py "Fix typo in README") [] [].

Definition two_issues : list parsed :=
  [ Parsed 1 lru_issue true
      (py "Complex implementation challenge with good learning value");
    Parsed 2 typo_issue false (py "Contains negative keyword: 'typo'") ].

Definition two_parsed : list parsed :=
  [ Parsed 1 lru_issue false []; Parsed 2 typo_issue false [] ].

Definition old_entry : value :=
  Data {| data_title := py "Add dark mode";
          data_suitable := true;
          data_reason := py "Clear implementation task";
          data_labels := [py "feature"] |}.

Definition old_file : list (str * value) :=
  [ (py "metadata",
     Meta {| generated_at := py "2025-09-01 10:00:00";
             total_issues := 1;
             suitable_issues := 1;
             analysis_method := py "keyword";
             updated_issues := 1 |});
    (py "7", old_entry) ].

Lemma two_issues_distinct : NoDup (map parsed_id two_issues).
Proof.
  constructor; [intros [H|[]]; discriminate H|].
  constructor; [intros []|]. constructor.
Defined.

Lemma saved_issue_is_analyzed_witness :
  is_issue_analyzed 2
    (save_issues_analysis (py "2025-09-02 08:30:00") (Some old_file)
       two_issues (py "keyword")) = true.
Proof.
  apply (@saved_issue_is_analyzed ascii_digits (py "2025-09-02 08:30:00")
           (Some old_file) two_issues (py "keyword")
           (Parsed 2 typo_issue false
              (py "Contains negative keyword: 'typo'"))).
  right. left. reflexivity.
Defined.

Lemma old_entries_kept_witness :
  dict_get (py "7")
    (save_issues_analysis (py "2025-09-02 08:30:00") (Some old_file)
       two_issues (py "keyword")) = Some old_entry.
Proof.
  apply (@old_entries_kept ascii_digits).
  - vm_compute. reflexivity.
  - intros H. vm_compute in H. discriminate H.
  - intros i [<-|[<-|[]]] H; vm_compute in H; discriminate H.
Defined.

Lemma second_save_updates_nothing_witness :
  exists m entries,
    save_issues_analysis (py "2025-09-02 08:30:00") (Some old_file)
      two_issues (py "keyword")
    = (py "metadata", Meta m) :: entries /\
    save_issues_analysis (py "2025-09-03 09:00:00")
      (Some (save_issues_analysis (py "2025-09-02 08:30:00") (Some old_file)
               two_issues (py "keyword")))
      two_issues (py "llm")
    = (py "metadata",
       Meta {| generated_at := py "2025-09-03 09:00:00";
               total_issues := total_issues m;
               suitable_issues := suitable_issues m;
               analysis_method := py "llm";
               updated_issues := 0 |}) :: entries.
Proof.
  apply (@second_save_updates_nothing ascii_digits). exact two_issues_distinct.
Defined.

Lemma first_save_witness :
  save_issues_analysis (py "2025-09-02 08:30:00") None two_issues
    (py "keyword") =
  (py "metadata",
   Meta {| generated_at := py "2025-09-02 08:30:00";
           total_issues := length two_issues;
           suitable_issues := length (filter parsed_suitable two_issues);
           analysis_method := py "keyword";
           updated_issues := length two_issues |})
    :: map (fun i => (str_of_N (parsed_id i), Data (issue_data_of i)))
         two_issues.
Proof.
  apply (@first_save ascii_digits). exact two_issues_distinct.
Defined.

Lemma rerun_reuses_verdicts_witness :
  analyze_issues two_parsed
    (Some (save_issues_analysis (py "2025-09-02 08:30:00") (Some old_file)
             two_issues (py "keyword")))
  = (two_issues, filter parsed_suitable two_issues).
Proof.
  refine (proj1 (@rerun_reuses_verdicts plain_unicode ascii_digits
                   (py "2025-09-02 08:30:00") (Some old_file) two_issues
                   (py "keyword") two_parsed two_issues_distinct _)).
  repeat constructor.
Defined.

(** * Where the issues are written and where they are looked for *)

(** [s.endswith(suffix)] *)
Definition endswith (suffix s : str) : bool :=
  startswith (rev suffix) (rev s).

(** [os.path.join(a, b)] with [/] as separator. *)
Definition path_join (a b : str) : str :=
  if startswith (py "/") b then b
  else
    match a with
    | [] => b
    | _ => if endswith (py "/") a then a ++ b else a ++ py "/" ++ b
    end.

(** The category as the string that the classifier returns. *)
Definition category_name (c : category) : str :=
  match c with
  | bug => py "bug"
  | enhancement => py "enhancement"
  | other => py "other"
  end.

(** Scratch.py: [BASE_OUTPUT_DIR], and the default of [BASE_DIR] in
    generate.py. *)
Definition BASE_OUTPUT_DIR : str := py "github_issues_output".

Section Directories.
Context {U : Unicode}.

(** Scratch.py, [save_issue_as_markdown]: the directory of the issue. *)
Definition output_dir (state title body : str) (labels : list str) : str :=
  let state_dir :=
    if str_eqb state (py "open") then py "open_issues"
    else py "closed_issues" in
  let '(category, confidence) :=
    get_classification_confidence title body labels in
  let category_dir := category_name category in
  path_join (path_join BASE_OUTPUT_DIR state_dir) category_dir.

(** Scratch.py, [save_issue_as_markdown]: the path of the file written. *)
Definition save_issue_as_markdown (number : N) (state title body : str)
    (labels : list str) : str :=
  path_join (output_dir state title body labels)
    (issue_filename number title).

End Directories.

(** generate.py, [find_feature_and_bug_files]: the directories listed. *)
Definition target_dirs (base_dir : str) : list str :=
  map (fun category =>
         path_join (path_join base_dir (py "open_issues")) category)
    [py "feature"; py "bug"].

(** generate.py, [find_feature_and_bug_files], over a file system given by
    [os.path.exists] and [os.listdir]. *)
Definition find_feature_and_bug_files (path_exists : str -> bool)
    (listdir : str -> list str) (base_dir : str) : option (list str) :=
  if negb (path_exists base_dir) then None
  else
    Some
      (flat_map
         (fun target_dir =>
            if path_exists target_dir
            then map (path_join target_dir)
                   (filter (endswith (py ".md")) (listdir target_dir))
            else [])
         (target_dirs base_dir)).

Section DirectoryFacts.
Context {U : Unicode}.

(** The generator lists the directories of the open issues named feature
    and bug, while the issues are written under the name of their category.
    So an issue is written where the generator looks only when it is open
    and classified as a bug: the directory of an enhancement is never
    listed. *)
Theorem only_open_bugs_are_listed (state title body : str)
    (labels : list str) :
  In (output_dir state title body labels) (target_dirs BASE_OUTPUT_DIR) <->
  state = py "open" /\ classify_issue title body labels = bug.
Proof.
  unfold output_dir, get_classification_confidence. cbv zeta.
  destruct (classify_issue title body labels) eqn:C;
    destruct (str_eqb state (py "open")) eqn:S;
    (split;
     [ intros H; vm_compute in H;
       destruct H as [H|[H|[]]]; try discriminate H;
       (split; [apply str_eqb_eq, S | reflexivity])
     | intros [H1 H2]; try discriminate H2;
       try (rewrite H1, str_eqb_refl in S; discriminate S);
       vm_compute; right; left; reflexivity ]).
Qed.

End DirectoryFacts.
